(** * Subharmonic synthesizer (lib/rbcodec/dsp/subharmonic.c)

    A shallow embedding of the fixed-point subharmonic DSP stage: the gain
    table, the coefficient computation, the per-sample pipeline and the
    lifecycle dispatcher, followed by the properties established about
    them.

    Integer model.  [int] and [int32_t] are 32-bit two's complement,
    [int64_t] is 64-bit two's complement.  Values are mathematical
    integers ([Z]); every C operation whose result may leave the range of
    its type is followed by the reduction into that range ([wrap32],
    [wrap64]), which is what the compilers used for the supported targets
    produce.  [>>] on a signed operand is the arithmetic shift
    ([Z.shiftr], rounding towards minus infinity) and [/] is C division
    ([Z.quot], rounding towards zero). *)

From Stdlib Require Import ZArith List Bool Lia.
Import ListNotations.
Local Open Scope Z_scope.

(** ** Machine integers *)

Module MachInt.

Definition INT32_MAX : Z := 2147483647.
Definition INT32_MIN : Z := -2147483648.
Definition INT64_MAX : Z := 9223372036854775807.
Definition INT64_MIN : Z := -9223372036854775808.

(** Reduction of an integer into the signed range of width [w]. *)
Definition wrap (w : Z) (x : Z) : Z :=
  (x + 2 ^ (w - 1)) mod 2 ^ w - 2 ^ (w - 1).

Definition wrap32 : Z -> Z := wrap 32.
Definition wrap64 : Z -> Z := wrap 64.

Definition in_int32 (x : Z) : Prop := INT32_MIN <= x <= INT32_MAX.
Definition in_int64 (x : Z) : Prop := INT64_MIN <= x <= INT64_MAX.

End MachInt.
Import MachInt.

(** ** Two-element arrays

    The filter memories are arrays indexed by the channel number, which
    the processing loop keeps in {0, 1}. *)

Definition arr2 (A : Type) : Type := (A * A)%type.

Definition get2 {A} (a : arr2 A) (ch : Z) : A :=
  if ch =? 0 then fst a else snd a.

Definition set2 {A} (a : arr2 A) (ch : Z) (v : A) : arr2 A :=
  if ch =? 0 then (v, snd a) else (fst a, v).

(** ** Program state *)

(** The fields of [global_settings] that this file reads or writes. *)
Record settings : Type := mkSettings {
  subharmonic_enable    : bool;
  subharmonic_crossover : Z;
  subharmonic_level     : Z;
  subharmonic_pregain   : bool
}.

(** The file-scope variables together with [global_settings]. *)
Record state : Type := mkState {
  prev_crossover_out     : arr2 Z;
  subharmonic_hold_q16   : arr2 Z;
  prev_antialias_out_q16 : arr2 Z;
  toggle_state           : arr2 Z;
  samplerate             : Z;
  alpha_q16              : Z;
  gain_q16               : Z;
  pregain                : bool;
  global_settings        : settings
}.

(** Initial values of the statics, for given settings. *)
Definition initial_state (gs : settings) : state :=
  mkState (0, 0) (0, 0) (0, 0) (0, 0) 44100 0 0 false gs.

(** ** Gain table *)

Definition GAIN_TABLE_MIN_DB : Z := -24.
Definition GAIN_TABLE_MAX_DB : Z := 12.

Definition gain_table_q16 : list Z :=
  [ 4145; 4655; 5226; 5867; 6588; 7399; 8310; 9336; 10488; 11782;
    13234; 14865; 16700; 18766; 21095; 23721; 26686; 30033; 33808;
    38065; 42862; 48265; 54342; 61172; 65536; 73690; 82708; 92713;
    103957; 116607; 130858; 146928; 165060; 185533; 208661; 234804;
    264367 ].

(** The largest entry of the table (+12 dB). *)
Definition GAIN_TABLE_MAX_Q16 : Z := 264367.

(** The clamp and lookup that [recompute] and [sound_set_subharmonic_level]
    both perform. *)
Definition gain_lookup (db : Z) : Z :=
  let db := if db <? GAIN_TABLE_MIN_DB then GAIN_TABLE_MIN_DB else db in
  let db := if db >? GAIN_TABLE_MAX_DB then GAIN_TABLE_MAX_DB else db in
  nth (Z.to_nat (wrap32 (db - GAIN_TABLE_MIN_DB))) gain_table_q16 0.

(** ** flush_state *)

Definition flush_state (s : state) : state :=
  mkState (0, 0) (0, 0) (0, 0) (0, 0)
          (samplerate s) (alpha_q16 s) (gain_q16 s) (pregain s)
          (global_settings s).

(** ** Coefficient computation *)

(** [(int32_t)(6.283185307179586 * (1<<16))]: the product is
    411774.83..., truncated by the conversion. *)
Definition TWO_PI_Q16 : Z := 411774.

(** [w_q16 = (int64_t)f * TWO_PI_Q16] *)
Definition alpha_w (f : Z) : Z := wrap64 (f * TWO_PI_Q16).

(** [den = w_q16 + ((int64_t)samplerate << 16)], before the guard. *)
Definition alpha_den_raw (f fs : Z) : Z :=
  wrap64 (alpha_w f + wrap64 (Z.shiftl fs 16)).

(** [if (den <= 0) den = 1;] *)
Definition alpha_den (f fs : Z) : Z :=
  let den := alpha_den_raw f fs in
  if den <=? 0 then 1 else den.

(** [(int32_t)((w_q16<<16) / den)] *)
Definition alpha_of (f fs : Z) : Z :=
  wrap32 (Z.quot (wrap64 (Z.shiftl (alpha_w f) 16)) (alpha_den f fs)).

(** ** recompute *)

Definition recompute (s : state) : state :=
  let fc := subharmonic_crossover (global_settings s) in
  let w_q16 := wrap64 (fc * TWO_PI_Q16) in
  let den := wrap64 (w_q16 + wrap64 (Z.shiftl (samplerate s) 16)) in
  let den := if den <=? 0 then 1 else den in
  let alpha := wrap32 (Z.quot (wrap64 (Z.shiftl w_q16 16)) den) in
  let db := subharmonic_level (global_settings s) in
  let db := if db <? GAIN_TABLE_MIN_DB then GAIN_TABLE_MIN_DB else db in
  let db := if db >? GAIN_TABLE_MAX_DB then GAIN_TABLE_MAX_DB else db in
  let gain := nth (Z.to_nat (wrap32 (db - GAIN_TABLE_MIN_DB))) gain_table_q16 0 in
  mkState (prev_crossover_out s) (subharmonic_hold_q16 s)
          (prev_antialias_out_q16 s) (toggle_state s)
          (samplerate s) alpha gain
          (subharmonic_pregain (global_settings s))
          (global_settings s).

(** ** Runtime setters *)

Definition sound_set_subharmonic_crossover (hz : Z) (s : state) : state :=
  let w_q16 := wrap64 (hz * TWO_PI_Q16) in
  let den := wrap64 (w_q16 + wrap64 (Z.shiftl (samplerate s) 16)) in
  let den := if den <=? 0 then 1 else den in
  let alpha := wrap32 (Z.quot (wrap64 (Z.shiftl w_q16 16)) den) in
  mkState (prev_crossover_out s) (subharmonic_hold_q16 s)
          (prev_antialias_out_q16 s) (toggle_state s)
          (samplerate s) alpha (gain_q16 s) (pregain s)
          (global_settings s).

Definition sound_set_subharmonic_level (db : Z) (s : state) : state :=
  let db := if db <? GAIN_TABLE_MIN_DB then GAIN_TABLE_MIN_DB else db in
  let db := if db >? GAIN_TABLE_MAX_DB then GAIN_TABLE_MAX_DB else db in
  let gain := nth (Z.to_nat (wrap32 (db - GAIN_TABLE_MIN_DB))) gain_table_q16 0 in
  mkState (prev_crossover_out s) (subharmonic_hold_q16 s)
          (prev_antialias_out_q16 s) (toggle_state s)
          (samplerate s) (alpha_q16 s) gain (pregain s)
          (global_settings s).

Definition sound_set_subharmonic_pregain_enable (on : bool) (s : state) : state :=
  mkState (prev_crossover_out s) (subharmonic_hold_q16 s)
          (prev_antialias_out_q16 s) (toggle_state s)
          (samplerate s) (alpha_q16 s) (gain_q16 s) on
          (global_settings s).

(** ** The per-sample pipeline *)

(** One step of the one-pole low-pass recurrence
    [y[n] = alpha * x[n] + (1 - alpha) * y[n-1]], as the source writes it
    at both filter stages:
    [(int32_t)((((int64_t)alpha * x) + (((int64_t)((1<<16)-alpha)) * prev)) >> 16)].
    The subtraction is done in [int], the products and the sum in
    [int64_t]. *)
Definition lowpass_q16 (alpha x prev : Z) : Z :=
  wrap32 (Z.shiftr
            (wrap64 (wrap64 (alpha * x)
                     + wrap64 (wrap32 (Z.shiftl 1 16 - alpha) * prev)))
            16).

(** The mixing and clipping stage: the 64-bit [mixer_out], clamped to the
    32-bit range and converted to [int32_t]. *)
Definition mixer (sample antialias_out gain : Z) (pg : bool) : Z :=
  let mixer_out :=
    if pg
    then wrap64 (Z.shiftr sample 1 + Z.shiftr (wrap64 (gain * antialias_out)) 16)
    else wrap64 (sample + Z.shiftr (wrap64 (gain * antialias_out)) 16) in
  let mixer_out := if mixer_out >? INT32_MAX then INT32_MAX else mixer_out in
  let mixer_out := if mixer_out <? INT32_MIN then INT32_MIN else mixer_out in
  wrap32 mixer_out.

(** The values of the local variables of one run of the channel loop
    body. *)
Record stage_values : Type := mkStages {
  v_crossover_out   : Z;
  v_subharmonic_out : Z;
  v_antialias_out   : Z;
  v_mixer_out       : Z
}.

(** The body of the channel loop for channel [ch] and input [sample]:
    the new state and the values of the stages ([v_mixer_out] is what is
    written back to the buffer). *)
Definition channel_body (s : state) (ch sample : Z) : state * stage_values :=
  let crossover_out :=
    lowpass_q16 (alpha_q16 s) sample (get2 (prev_crossover_out s) ch) in
  let pco := set2 (prev_crossover_out s) ch crossover_out in
  let hold :=
    if get2 (toggle_state s) ch =? 0
    then set2 (subharmonic_hold_q16 s) ch crossover_out
    else subharmonic_hold_q16 s in
  let tog := set2 (toggle_state s) ch (Z.lxor (get2 (toggle_state s) ch) 1) in
  let subharmonic_out := get2 hold ch in
  let antialias_out :=
    lowpass_q16 (alpha_q16 s) subharmonic_out
                (get2 (prev_antialias_out_q16 s) ch) in
  let paa := set2 (prev_antialias_out_q16 s) ch antialias_out in
  let out := mixer sample antialias_out (gain_q16 s) (pregain s) in
  (mkState pco hold paa tog (samplerate s) (alpha_q16 s) (gain_q16 s)
           (pregain s) (global_settings s),
   mkStages crossover_out subharmonic_out antialias_out out).

(** The part of [struct dsp_buffer] that [process] uses.  The two channel
    pointers are distinct arrays, each holding at least [remcount]
    samples; an index outside a list reads 0 and writes nothing. *)
Record dsp_buffer : Type := mkBuffer {
  remcount     : Z;
  p32          : arr2 (list Z);
  num_channels : Z
}.

Fixpoint store {A} (l : list A) (n : nat) (v : A) : list A :=
  match l, n with
  | [], _ => []
  | _ :: t, O => v :: t
  | h :: t, S n' => h :: store t n' v
  end.

Definition buf_read (b : dsp_buffer) (ch i : Z) : Z :=
  nth (Z.to_nat i) (get2 (p32 b) ch) 0.

Definition buf_write (b : dsp_buffer) (ch i v : Z) : dsp_buffer :=
  mkBuffer (remcount b)
           (set2 (p32 b) ch (store (get2 (p32 b) ch) (Z.to_nat i) v))
           (num_channels b).

(** One iteration of the channel loop: read [*samp], run the body, write
    the mixed sample back. *)
Definition process_channel (i ch : Z) (sb : state * dsp_buffer)
  : state * dsp_buffer :=
  let (s, b) := sb in
  let (s', v) := channel_body s ch (buf_read b ch i) in
  (s', buf_write b ch i (v_mixer_out v)).

(** [for (ch = 0; ch < num_channels && ch < 2; ch++)] *)
Definition process_sample (i : Z) (sb : state * dsp_buffer)
  : state * dsp_buffer :=
  let nch := num_channels (snd sb) in
  let sb := if 0 <? nch then process_channel i 0 sb else sb in
  if 1 <? nch then process_channel i 1 sb else sb.

(** [for (i = 0; i < count; i++)]: [n] iterations remain, starting at
    index [i]. *)
Fixpoint process_loop (n : nat) (i : Z) (sb : state * dsp_buffer)
  : state * dsp_buffer :=
  match n with
  | O => sb
  | S n' => process_loop n' (i + 1) (process_sample i sb)
  end.

Definition process (s : state) (b : dsp_buffer) : state * dsp_buffer :=
  if negb (subharmonic_enable (global_settings s))
  then (s, b)
  else process_loop (Z.to_nat (remcount b)) 0 (s, b).

(** ** Lifecycle dispatch *)

(** The setting codes that [configure] distinguishes; every other code
    takes the [default] branch. *)
Inductive dsp_setting : Type :=
| DSP_PROC_INIT
| DSP_PROC_CLOSE
| DSP_FLUSH
| DSP_SET_OUT_FREQUENCY
| DSP_PROC_NEW_FORMAT
| DSP_OTHER (code : Z).

(** [this->process]: [true] when it points to [process], [false] when it
    is [NULL]. *)
Record dsp_proc_entry : Type := mkEntry { entry_process : bool }.

(** The two values [configure] returns. *)
Inductive configure_result : Type :=
| RET_0
| PROC_NEW_FORMAT_OK.

Definition set_samplerate (fs : Z) (s : state) : state :=
  mkState (prev_crossover_out s) (subharmonic_hold_q16 s)
          (prev_antialias_out_q16 s) (toggle_state s)
          fs (alpha_q16 s) (gain_q16 s) (pregain s) (global_settings s).

(** [out_freq] is the value of [dsp_get_output_frequency(dsp)], an
    [unsigned int] that the assignment converts to [int]. *)
Definition configure (this : dsp_proc_entry) (out_freq : Z)
                     (setting : dsp_setting) (s : state)
  : state * dsp_proc_entry * configure_result :=
  match setting with
  | DSP_PROC_INIT =>
      let s := flush_state s in
      let this := mkEntry true in
      let s := set_samplerate (wrap32 out_freq) s in
      (recompute s, this, RET_0)
  | DSP_PROC_CLOSE =>
      (flush_state s, mkEntry false, RET_0)
  | DSP_FLUSH =>
      (flush_state s, this, RET_0)
  | DSP_SET_OUT_FREQUENCY =>
      let s := set_samplerate (wrap32 out_freq) s in
      (recompute s, this, RET_0)
  | DSP_PROC_NEW_FORMAT =>
      (s, this, PROC_NEW_FORMAT_OK)
  | DSP_OTHER _ =>
      (s, this, RET_0)
  end.

(** ** Runs of one channel

    The memories of a channel only change when the loop body runs for
    that channel, so the behaviour of a channel over a stream is the
    iteration of [channel_body] over its samples. *)

Fixpoint run_channel (s : state) (ch : Z) (xs : list Z)
  : state * list stage_values :=
  match xs with
  | [] => (s, [])
  | x :: xs' =>
      let (s1, v) := channel_body s ch x in
      let (s2, vs) := run_channel s1 ch xs' in
      (s2, v :: vs)
  end.

(** The state before sample number [n] of the stream [xs]. *)
Definition state_before (s : state) (ch : Z) (xs : list Z) (n : nat) : state :=
  fst (run_channel s ch (firstn n xs)).

(** The stage values of sample number [n] of the stream [xs]. *)
Definition stages_at (s : state) (ch : Z) (xs : list Z) (n : nat) : stage_values :=
  snd (channel_body (state_before s ch xs n) ch (nth n xs 0)).

(** ** Notions used in the statements *)

(** The largest cutoff whose [w_q16 << 16] still fits in 64 bits:
    [CUTOFF_MAX * TWO_PI_Q16 < 2^47 <= (CUTOFF_MAX + 1) * TWO_PI_Q16]. *)
Definition CUTOFF_MAX : Z := 341783328.

(** The quotient that the coefficient computation approximates, over the
    unbounded integers: [w * 2^16 / (w + fs * 2^16)] with
    [w = f * TWO_PI_Q16]. *)
Definition alpha_exact (f fs : Z) : Z :=
  (f * TWO_PI_Q16 * 65536) / (f * TWO_PI_Q16 + fs * 65536).

(** Saturation to the 32-bit sample range. *)
Definition clamp32 (x : Z) : Z := Z.max INT32_MIN (Z.min INT32_MAX x).

(** The mix over the unbounded integers, before saturation. *)
Definition mix_exact (sample antialias_out gain : Z) (pg : bool) : Z :=
  (if pg then sample / 2 else sample) + (gain * antialias_out) / 65536.

(** The accumulator of one low-pass step over the unbounded integers. *)
Definition lowpass_acc (alpha x prev : Z) : Z :=
  alpha * x + (65536 - alpha) * prev.

(** All filter memories of both channels hold 32-bit values. *)
Definition cells_in_int32 (s : state) : Prop :=
  forall ch,
    in_int32 (get2 (prev_crossover_out s) ch) /\
    in_int32 (get2 (subharmonic_hold_q16 s) ch) /\
    in_int32 (get2 (prev_antialias_out_q16 s) ch).

(** The magnitude of a Q16 coefficient is below 1.0. *)
Definition below_one_q16 (a : Z) : Prop := - 65536 < a < 65536.

(** A state with the given configured cutoff and cached sample rate. *)
Definition state_with (f fs : Z) : state :=
  set_samplerate fs (initial_state (mkSettings true f 0 false)).

(** The crossover low-pass filter on its own, run over a stream from the
    memory [prev]: [y[n] = alpha * x[n] + (1 - alpha) * y[n-1]].  It is
    the reference the sample-and-hold stage is compared with. *)
Fixpoint crossover_outputs (alpha prev : Z) (xs : list Z) : list Z :=
  match xs with
  | [] => []
  | x :: xs' =>
      let y := lowpass_q16 alpha x prev in
      y :: crossover_outputs alpha y xs'
  end.

(** The four memory cells of one channel. *)
Definition chan_cells (s : state) (ch : Z) : Z * Z * Z * Z :=
  (get2 (prev_crossover_out s) ch, get2 (subharmonic_hold_q16 s) ch,
   get2 (prev_antialias_out_q16 s) ch, get2 (toggle_state s) ch).

(** Two states look the same to the loop body of channel [ch]. *)
Definition agree_on (ch : Z) (s t : state) : Prop :=
  chan_cells s ch = chan_cells t ch /\
  alpha_q16 s = alpha_q16 t /\
  gain_q16 s = gain_q16 t /\
  pregain s = pregain t.

(** ** Histories

    The entry points of the file other than the enable setter, as they
    may be called one after the other by the host and by the settings
    code. *)
Inductive event : Type :=
| EvConfigure (setting : dsp_setting) (out_freq : Z)
| EvProcess (b : dsp_buffer)
| EvCrossover (hz : Z)
| EvLevel (db : Z)
| EvPregain (on : bool).

Definition apply_event (e : event) (st : state * dsp_proc_entry)
  : state * dsp_proc_entry :=
  let (s, this) := st in
  match e with
  | EvConfigure setting out_freq => fst (configure this out_freq setting s)
  | EvProcess b => (fst (process s b), this)
  | EvCrossover hz => (sound_set_subharmonic_crossover hz s, this)
  | EvLevel db => (sound_set_subharmonic_level db s, this)
  | EvPregain on => (sound_set_subharmonic_pregain_enable on s, this)
  end.

Fixpoint run_events (evs : list event) (st : state * dsp_proc_entry)
  : state * dsp_proc_entry :=
  match evs with
  | [] => st
  | e :: evs' => run_events evs' (apply_event e st)
  end.

(** The events whose arguments are in the range the coefficient
    computation is exact for. *)
Definition valid_event (e : event) : Prop :=
  match e with
  | EvConfigure _ out_freq => 0 < out_freq <= INT32_MAX
  | EvCrossover hz => 0 <= hz <= CUTOFF_MAX
  | _ => True
  end.

(** ** Registration with the host pipeline *)

(** The calls that [dsp_set_subharmonic] makes into the host's DSP core,
    which owns the process table.  [dsp_get_config] and
    [dsp_proc_enabled] are queries; the answer of the latter is the
    argument [was_enabled] below. *)
Inductive host_call : Type :=
| Call_dsp_proc_enable (enable : bool)
| Call_dsp_configure_INIT
| Call_dsp_proc_activate (activate : bool)
| Call_dsp_proc_set_in_place (in_place : bool).

(** The DSP core is not part of this file, but the stage is registered
    with [configure] as its callback, so a call into the core can come
    back into this file before it returns: registering or the
    [DSP_PROC_INIT] request reach [configure] with [DSP_PROC_INIT],
    unregistering with [DSP_PROC_CLOSE].  A [host_reaction] gives, for
    each call, the lifecycle events the core delivers to [configure]
    while serving it, each with the output frequency it reports then. *)
Definition host_reaction : Type := host_call -> list (dsp_setting * Z).

(** The callbacks of one call, delivered in order. *)
Fixpoint deliver (cbs : list (dsp_setting * Z)) (st : state * dsp_proc_entry)
  : state * dsp_proc_entry :=
  match cbs with
  | [] => st
  | (setting, out_freq) :: cbs' =>
      deliver cbs' (fst (configure (snd st) out_freq setting (fst st)))
  end.

(** One call into the core: it is recorded and its callbacks run. *)
Definition host_do (host : host_reaction) (c : host_call)
                   (r : state * dsp_proc_entry * list host_call)
  : state * dsp_proc_entry * list host_call :=
  (deliver (host c) (fst r), snd r ++ [c]).

(** [dsp_set_subharmonic]: the state and process entry after the
    callbacks, and the host calls issued, in program order.  [on] is read
    from the settings before the first call. *)
Definition dsp_set_subharmonic (host : host_reaction) (was_enabled : bool)
                               (st : state * dsp_proc_entry)
  : state * dsp_proc_entry * list host_call :=
  let on := subharmonic_enable (global_settings (fst st)) in
  let r := (st, []) in
  if on
  then
    let r := if negb was_enabled
             then host_do host (Call_dsp_proc_enable true) r
             else host_do host Call_dsp_configure_INIT r in
    let r := host_do host (Call_dsp_proc_activate true) r in
    host_do host (Call_dsp_proc_set_in_place true) r
  else
    let r := host_do host (Call_dsp_proc_activate false) r in
    if was_enabled
    then host_do host (Call_dsp_proc_enable false) r
    else r.

(** The store [global_settings.subharmonic_enable = on]. *)
Definition store_enable (on : bool) (s : state) : state :=
  mkState (prev_crossover_out s) (subharmonic_hold_q16 s)
          (prev_antialias_out_q16 s) (toggle_state s)
          (samplerate s) (alpha_q16 s) (gain_q16 s) (pregain s)
          (mkSettings on
                      (subharmonic_crossover (global_settings s))
                      (subharmonic_level (global_settings s))
                      (subharmonic_pregain (global_settings s))).

(** [sound_set_subharmonic_enable]: the store into [global_settings]
    followed by [dsp_set_subharmonic]. *)
Definition sound_set_subharmonic_enable (host : host_reaction)
                                        (on : bool) (was_enabled : bool)
                                        (st : state * dsp_proc_entry)
  : state * dsp_proc_entry * list host_call :=
  dsp_set_subharmonic host was_enabled (store_enable on (fst st), snd st).

(** Modelled from the spec: the DSP core ([dsp_proc_enable],
    [dsp_configure], [dsp_proc_activate], [dsp_proc_set_in_place]) is not
    part of this file.  Re-enabling re-initialises the stage if it is
    already registered and otherwise registers it afresh, which
    initialises it; unregistering closes it; activation and the in-place
    mark deliver nothing.  [f] is the output frequency the core
    reports. *)
Definition core_host (f : Z) : host_reaction :=
  fun c =>
    match c with
    | Call_dsp_proc_enable true => [(DSP_PROC_INIT, f)]
    | Call_dsp_proc_enable false => [(DSP_PROC_CLOSE, f)]
    | Call_dsp_configure_INIT => [(DSP_PROC_INIT, f)]
    | Call_dsp_proc_activate _ => []
    | Call_dsp_proc_set_in_place _ => []
    end.

(** ** Further notions used in the statements *)

(** Both toggles are 0 or 1. *)
Definition toggles_ok (s : state) : Prop :=
  forall ch, get2 (toggle_state s) ch = 0 \/ get2 (toggle_state s) ch = 1.

(** The state in which the pipeline is meant to run: a coefficient in
    [0, 1), a gain taken from the table, 32-bit memories and boolean
    toggles. *)
Definition ready (s : state) : Prop :=
  0 <= alpha_q16 s < 65536 /\
  In (gain_q16 s) gain_table_q16 /\
  cells_in_int32 s /\
  toggles_ok s.

(** The three signal memories of channel [ch] lie between [lo] and
    [hi]. *)
Definition cells_within (lo hi : Z) (s : state) (ch : Z) : Prop :=
  lo <= get2 (prev_crossover_out s) ch <= hi /\
  lo <= get2 (subharmonic_hold_q16 s) ch <= hi /\
  lo <= get2 (prev_antialias_out_q16 s) ch <= hi.

(** The three signal memories of channel [ch] are zero. *)
Definition cells_zero (s : state) (ch : Z) : Prop :=
  get2 (prev_crossover_out s) ch = 0 /\
  get2 (subharmonic_hold_q16 s) ch = 0 /\
  get2 (prev_antialias_out_q16 s) ch = 0.

(** A [ready] state whose cached sample rate and configured cutoff are
    in the range the coefficient computation is exact for. *)
Definition operational (s : state) : Prop :=
  ready s /\
  0 < samplerate s <= INT32_MAX /\
  0 <= subharmonic_crossover (global_settings s) <= CUTOFF_MAX.

(** Channel [c] of [s] and channel [c'] of [t] look the same to the loop
    body. *)
Definition mirror (c c' : Z) (s t : state) : Prop :=
  chan_cells s c = chan_cells t c' /\
  alpha_q16 s = alpha_q16 t /\
  gain_q16 s = gain_q16 t /\
  pregain s = pregain t.

(** The decibel level after the clamp to the table range. *)
Definition clamp_db (db : Z) : Z :=
  Z.max GAIN_TABLE_MIN_DB (Z.min GAIN_TABLE_MAX_DB db).

(** * Properties *)

(** ** Machine-integer facts *)

Section MachIntFacts.

Lemma wrap32_id x : in_int32 x -> wrap32 x = x.
Proof.
  unfold in_int32, INT32_MIN, INT32_MAX, wrap32, wrap; intros H.
  change (2 ^ (32 - 1)) with 2147483648. change (2 ^ 32) with 4294967296.
  rewrite Z.mod_small; lia.
Qed.

Lemma wrap64_id x : in_int64 x -> wrap64 x = x.
Proof.
  unfold in_int64, INT64_MIN, INT64_MAX, wrap64, wrap; intros H.
  change (2 ^ (64 - 1)) with 9223372036854775808.
  change (2 ^ 64) with 18446744073709551616.
  rewrite Z.mod_small; lia.
Qed.

Lemma wrap32_range x : in_int32 (wrap32 x).
Proof.
  unfold in_int32, INT32_MIN, INT32_MAX, wrap32, wrap.
  change (2 ^ (32 - 1)) with 2147483648. change (2 ^ 32) with 4294967296.
  pose proof (Z.mod_pos_bound (x + 2147483648) 4294967296 eq_refl). lia.
Qed.

Lemma wrap64_range x : in_int64 (wrap64 x).
Proof.
  unfold in_int64, INT64_MIN, INT64_MAX, wrap64, wrap.
  change (2 ^ (64 - 1)) with 9223372036854775808.
  change (2 ^ 64) with 18446744073709551616.
  pose proof (Z.mod_pos_bound (x + 9223372036854775808)
                              18446744073709551616 eq_refl). lia.
Qed.

(** Wrapping changes a value by a multiple of the modulus. *)
Lemma wrap32_congr x : exists q, wrap32 x = x - 4294967296 * q.
Proof.
  unfold wrap32, wrap.
  change (2 ^ (32 - 1)) with 2147483648. change (2 ^ 32) with 4294967296.
  exists ((x + 2147483648) / 4294967296).
  pose proof (Z.div_mod (x + 2147483648) 4294967296). lia.
Qed.

Lemma wrap64_congr x : exists q, wrap64 x = x - 18446744073709551616 * q.
Proof.
  unfold wrap64, wrap.
  change (2 ^ (64 - 1)) with 9223372036854775808.
  change (2 ^ 64) with 18446744073709551616.
  exists ((x + 9223372036854775808) / 18446744073709551616).
  pose proof (Z.div_mod (x + 9223372036854775808) 18446744073709551616). lia.
Qed.

Lemma shiftl16 x : Z.shiftl x 16 = x * 65536.
Proof. rewrite Z.shiftl_mul_pow2 by lia. reflexivity. Qed.

Lemma shiftr16 x : Z.shiftr x 16 = x / 65536.
Proof. rewrite Z.shiftr_div_pow2 by lia. reflexivity. Qed.

Lemma shiftr1 x : Z.shiftr x 1 = x / 2.
Proof. rewrite Z.shiftr_div_pow2 by lia. reflexivity. Qed.

(** Comparison of two floor quotients by cross multiplication. *)
Lemma div_le_cross a b c d :
  0 < b -> 0 < d -> a * d <= c * b -> a / b <= c / d.
Proof.
  intros Hb Hd H.
  apply Z.div_le_lower_bound; [lia|].
  pose proof (Z.mul_div_le a b Hb).
  assert (b * (d * (a / b)) <= b * c) by nia.
  nia.
Qed.

End MachIntFacts.

(** ** Two-element arrays *)

Lemma get2_set2_same {A} (a : arr2 A) ch v : get2 (set2 a ch v) ch = v.
Proof. unfold get2, set2. destruct (ch =? 0) eqn:E; rewrite ?E; reflexivity. Qed.

Lemma get2_set2_other {A} (a : arr2 A) ch ch' v :
  (ch =? 0) <> (ch' =? 0) -> get2 (set2 a ch v) ch' = get2 a ch'.
Proof.
  unfold get2, set2. destruct (ch =? 0), (ch' =? 0); simpl; congruence.
Qed.

(** ** The coefficient computation *)

Lemma recompute_alpha s :
  alpha_q16 (recompute s) =
  alpha_of (subharmonic_crossover (global_settings s)) (samplerate s).
Proof. reflexivity. Qed.

Lemma crossover_setter_alpha hz s :
  alpha_q16 (sound_set_subharmonic_crossover hz s) = alpha_of hz (samplerate s).
Proof. reflexivity. Qed.

Lemma recompute_gain s :
  gain_q16 (recompute s) = gain_lookup (subharmonic_level (global_settings s)).
Proof. reflexivity. Qed.

Section AlphaInRange.

Variables f fs : Z.
Hypothesis Hf : 0 <= f <= CUTOFF_MAX.
Hypothesis Hfs : 0 < fs <= INT32_MAX.

Lemma alpha_w_exact : alpha_w f = f * TWO_PI_Q16.
Proof.
  unfold alpha_w. apply wrap64_id.
  unfold in_int64, INT64_MIN, INT64_MAX, TWO_PI_Q16, CUTOFF_MAX in *. lia.
Qed.

Lemma alpha_den_raw_exact : alpha_den_raw f fs = f * TWO_PI_Q16 + fs * 65536.
Proof.
  unfold alpha_den_raw. rewrite alpha_w_exact, shiftl16.
  unfold in_int64, INT64_MIN, INT64_MAX, INT32_MAX, TWO_PI_Q16, CUTOFF_MAX in *.
  rewrite (wrap64_id (fs * 65536)); [apply wrap64_id|];
    unfold in_int64, INT64_MIN, INT64_MAX; lia.
Qed.

Lemma alpha_den_exact : alpha_den f fs = f * TWO_PI_Q16 + fs * 65536.
Proof.
  unfold alpha_den. rewrite alpha_den_raw_exact.
  unfold TWO_PI_Q16, CUTOFF_MAX, INT32_MAX in *.
  destruct (Z.leb_spec (f * 411774 + fs * 65536) 0); lia.
Qed.

Lemma alpha_exact_range : 0 <= alpha_exact f fs < 65536.
Proof.
  unfold alpha_exact, TWO_PI_Q16, CUTOFF_MAX, INT32_MAX in *. split.
  - apply Z.div_pos; lia.
  - apply Z.div_lt_upper_bound; lia.
Qed.

Lemma alpha_of_exact : alpha_of f fs = alpha_exact f fs.
Proof.
  pose proof alpha_exact_range as R.
  unfold alpha_of. rewrite alpha_den_exact, alpha_w_exact, shiftl16.
  rewrite wrap64_id.
  - rewrite Z.quot_div_nonneg.
    + apply wrap32_id. fold (alpha_exact f fs).
      unfold in_int32, INT32_MIN, INT32_MAX. lia.
    + unfold TWO_PI_Q16. lia.
    + unfold TWO_PI_Q16, INT32_MAX in *. lia.
  - unfold in_int64, INT64_MIN, INT64_MAX, TWO_PI_Q16, CUTOFF_MAX in *. lia.
Qed.

End AlphaInRange.

(** The value the guarded quotient takes when the raw denominator is not
    positive, together with the multiple-of-[2^16] consequence. *)
Lemma alpha_of_guarded f fs :
  alpha_den_raw f fs <= 0 ->
  alpha_den f fs = 1 /\
  alpha_of f fs = wrap32 (wrap64 (Z.shiftl (alpha_w f) 16)) /\
  alpha_of f fs mod 65536 = 0.
Proof.
  intros Hden.
  assert (Hd : alpha_den f fs = 1).
  { unfold alpha_den. destruct (Z.leb_spec (alpha_den_raw f fs) 0); lia. }
  assert (Ha : alpha_of f fs = wrap32 (wrap64 (Z.shiftl (alpha_w f) 16))).
  { unfold alpha_of. rewrite Hd, Z.quot_1_r. reflexivity. }
  repeat split; trivial.
  rewrite Ha, shiftl16.
  destruct (wrap64_congr (alpha_w f * 65536)) as [q Hq].
  destruct (wrap32_congr (wrap64 (alpha_w f * 65536))) as [r Hr].
  rewrite Hr, Hq.
  replace (alpha_w f * 65536 - 18446744073709551616 * q - 4294967296 * r)
    with ((alpha_w f - 281474976710656 * q - 65536 * r) * 65536) by lia.
  apply Z.mod_mul. lia.
Qed.

Lemma alpha_den_positive f fs : 0 < alpha_den f fs.
Proof.
  unfold alpha_den. destruct (Z.leb_spec (alpha_den_raw f fs) 0); lia.
Qed.

(** A multiple of [2^16] is zero or of magnitude at least [2^16]. *)
Lemma multiple_65536_zero_or_large a :
  a mod 65536 = 0 -> a = 0 \/ ~ below_one_q16 a.
Proof.
  intros H. unfold below_one_q16.
  pose proof (Z.div_mod a 65536). lia.
Qed.

(** Weak monotonicity of the exact quotient in both arguments. *)
Lemma alpha_exact_monotone f f' fs fs' :
  0 <= f <= f' -> 0 < fs' <= fs ->
  alpha_exact f fs <= alpha_exact f' fs'.
Proof.
  intros Hf Hfs. unfold alpha_exact, TWO_PI_Q16.
  apply div_le_cross; nia.
Qed.

(** C2 (amended).  For a positive cached sample rate and a cutoff between
    0 and [CUTOFF_MAX] (the largest cutoff whose [w_q16 << 16] fits in 64
    bits), the coefficient stored by [recompute] and the one stored by
    [sound_set_subharmonic_crossover] both satisfy
    [0 <= alpha_q16 < 2^16], and both equal the exact quotient. *)
Theorem alpha_q16_in_unit_interval (s : state) (hz : Z) :
  0 < samplerate s <= INT32_MAX ->
  0 <= subharmonic_crossover (global_settings s) <= CUTOFF_MAX ->
  0 <= hz <= CUTOFF_MAX ->
  0 <= alpha_q16 (recompute s) < 2 ^ 16 /\
  0 <= alpha_q16 (sound_set_subharmonic_crossover hz s) < 2 ^ 16 /\
  alpha_q16 (recompute s) =
    alpha_exact (subharmonic_crossover (global_settings s)) (samplerate s) /\
  alpha_q16 (sound_set_subharmonic_crossover hz s) =
    alpha_exact hz (samplerate s).
Proof.
  intros Hfs Hfc Hhz.
  rewrite recompute_alpha, crossover_setter_alpha.
  rewrite !alpha_of_exact by assumption.
  change (2 ^ 16) with 65536.
  pose proof (alpha_exact_range _ _ Hfc Hfs).
  pose proof (alpha_exact_range _ _ Hhz Hfs).
  repeat split; lia.
Qed.

Lemma alpha_q16_in_unit_interval_witness :
  0 <= alpha_q16 (recompute (state_with 100 44100)) < 2 ^ 16 /\
  0 <= alpha_q16 (sound_set_subharmonic_crossover 200 (state_with 100 44100))
     < 2 ^ 16.
Proof.
  destruct (alpha_q16_in_unit_interval (state_with 100 44100) 200)
    as [H1 [H2 _]].
  - simpl; unfold INT32_MAX; lia.
  - simpl; unfold CUTOFF_MAX; lia.
  - unfold CUTOFF_MAX; lia.
  - split; assumption.
Defined.

(** C2 as stated fails: with the sample rate 44100 and the non-negative
    cutoff 400000000, [w_q16 << 16] leaves the 64-bit range and both
    computations store the negative coefficient -46458; already at
    [CUTOFF_MAX + 1] the stored coefficient is negative. *)
Lemma alpha_q16_negative_for_large_cutoff :
  0 < samplerate (state_with 400000000 44100) /\
  0 <= subharmonic_crossover (global_settings (state_with 400000000 44100)) /\
  alpha_q16 (recompute (state_with 400000000 44100)) = -46458 /\
  alpha_q16 (sound_set_subharmonic_crossover 400000000
               (state_with 400000000 44100)) = -46458 /\
  ~ (0 <= alpha_q16 (recompute (state_with 400000000 44100)) < 2 ^ 16) /\
  ~ (0 <= alpha_q16 (recompute (state_with (CUTOFF_MAX + 1) 44100)) < 2 ^ 16).
Proof.
  repeat split; try (vm_compute; congruence).
  - vm_compute; intros [H _]; apply H; reflexivity.
  - vm_compute; intros [H _]; apply H; reflexivity.
Qed.

(** C5 (amended).  Whenever the raw denominator is not positive, both
    computations divide by 1 (so the divisor is never zero) and store the
    32-bit truncation of [w_q16 << 16]; that value is a multiple of
    [2^16], hence either 0 or of magnitude at least 1.0 in Q16. *)
Theorem nonpositive_denominator_replaced_by_one (s : state) :
  let f := subharmonic_crossover (global_settings s) in
  let fs := samplerate s in
  alpha_den_raw f fs <= 0 ->
  alpha_den f fs = 1 /\
  alpha_q16 (recompute s) = wrap32 (wrap64 (Z.shiftl (alpha_w f) 16)) /\
  alpha_q16 (sound_set_subharmonic_crossover f s) =
    wrap32 (wrap64 (Z.shiftl (alpha_w f) 16)) /\
  alpha_q16 (recompute s) mod 2 ^ 16 = 0 /\
  (alpha_q16 (recompute s) = 0 \/ ~ below_one_q16 (alpha_q16 (recompute s))).
Proof.
  intros f fs Hden.
  destruct (alpha_of_guarded f fs Hden) as [Hd [Ha Hm]].
  rewrite recompute_alpha, crossover_setter_alpha. fold f fs.
  change (2 ^ 16) with 65536.
  repeat split; trivial.
  apply multiple_65536_zero_or_large; exact Hm.
Qed.

Lemma nonpositive_denominator_replaced_by_one_witness :
  alpha_den (-7020) 44100 = 1 /\
  alpha_q16 (recompute (state_with (-7020) 44100)) = 551026688.
Proof.
  destruct (nonpositive_denominator_replaced_by_one (state_with (-7020) 44100))
    as [H1 [H2 _]].
  - vm_compute; congruence.
  - split; [exact H1 | rewrite H2; reflexivity].
Defined.

(** C5 as stated fails: with the cutoff -7020 and the sample rate 44100
    the raw denominator is -515880, 1 is substituted, and the stored
    coefficient is 551026688 (about 8408 in Q16), which is not near
    zero.  With the cutoff 1 and the sample rate -100 it is 1216217088. *)
Lemma guarded_coefficient_not_near_zero :
  alpha_den_raw (-7020) 44100 <= 0 /\
  alpha_q16 (recompute (state_with (-7020) 44100)) = 551026688 /\
  alpha_q16 (sound_set_subharmonic_crossover (-7020)
               (state_with (-7020) 44100)) = 551026688 /\
  ~ below_one_q16 (alpha_q16 (recompute (state_with (-7020) 44100))) /\
  alpha_den_raw 1 (-100) <= 0 /\
  alpha_q16 (recompute (state_with 1 (-100))) = 1216217088.
Proof.
  repeat split; try (vm_compute; congruence).
  vm_compute. intros [_ H]. discriminate H.
Qed.

(** C6 (amended).  Within the range where the computation is exact
    (cutoffs from 0 to [CUTOFF_MAX], positive 32-bit sample rates), the
    stored coefficient does not decrease when the cutoff grows or the
    sample rate shrinks: it is non-decreasing in the cutoff for a fixed
    sample rate and non-increasing in the sample rate for a fixed
    cutoff. *)
Theorem alpha_q16_monotone (s s' : state) :
  0 <= subharmonic_crossover (global_settings s)
    <= subharmonic_crossover (global_settings s') ->
  subharmonic_crossover (global_settings s') <= CUTOFF_MAX ->
  0 < samplerate s' <= samplerate s ->
  samplerate s <= INT32_MAX ->
  alpha_q16 (recompute s) <= alpha_q16 (recompute s').
Proof.
  intros Hf Hf' Hfs Hfs'.
  rewrite !recompute_alpha.
  rewrite !alpha_of_exact by lia.
  apply alpha_exact_monotone; assumption.
Qed.

Lemma alpha_q16_monotone_witness :
  alpha_q16 (recompute (state_with 100 48000))
  <= alpha_q16 (recompute (state_with 200 44100)).
Proof.
  apply alpha_q16_monotone.
  - simpl; lia.
  - simpl; unfold CUTOFF_MAX; lia.
  - simpl; lia.
  - simpl; unfold INT32_MAX; lia.
Defined.

(** C6 as stated fails: at the sample rate 44100 the cutoffs 25000 and
    25001 give the same coefficient 51170, and at the cutoff 0 the sample
    rates 44100 and 48000 both give 0 (as do 44100 and 44101 at the
    cutoff 100, with 920). *)
Lemma alpha_q16_not_strictly_monotone :
  ~ (alpha_q16 (recompute (state_with 25000 44100))
     < alpha_q16 (recompute (state_with 25001 44100))) /\
  ~ (alpha_q16 (recompute (state_with 0 48000))
     < alpha_q16 (recompute (state_with 0 44100))) /\
  ~ (alpha_q16 (recompute (state_with 100 44101))
     < alpha_q16 (recompute (state_with 100 44100))).
Proof.
  repeat split; vm_compute; discriminate.
Qed.

(** ** The mixer *)

Ltac unfold_ranges :=
  unfold in_int32, in_int64, INT32_MIN, INT32_MAX, INT64_MIN, INT64_MAX,
         GAIN_TABLE_MAX_Q16 in *.

Lemma product_in_int64 a b : in_int32 a -> in_int32 b -> in_int64 (a * b).
Proof. unfold_ranges. intros Ha Hb. nia. Qed.

Lemma div65536_bounds x lo hi :
  lo * 65536 <= x -> x <= hi * 65536 -> lo <= x / 65536 <= hi.
Proof.
  intros Hlo Hhi.
  pose proof (Z.div_mod x 65536). pose proof (Z.mod_pos_bound x 65536). lia.
Qed.

(** The 64-bit arithmetic of the mixer never wraps: its result is the
    saturation of the exact mix. *)
Lemma mixer_saturates sample aa gain pg :
  in_int32 sample -> in_int32 aa -> in_int32 gain ->
  mixer sample aa gain pg = clamp32 (mix_exact sample aa gain pg).
Proof.
  intros Hs Ha Hg.
  pose proof (product_in_int64 gain aa Hg Ha) as HP.
  unfold mixer, mix_exact, clamp32.
  rewrite (wrap64_id _ HP), shiftr16, shiftr1.
  assert (Hq : -70368744177664 <= gain * aa / 65536 <= 70368744177664).
  { apply div65536_bounds; unfold_ranges; nia. }
  assert (Hh : -1073741824 <= sample / 2 <= 1073741823).
  { pose proof (Z.div_mod sample 2). pose proof (Z.mod_pos_bound sample 2).
    unfold_ranges. lia. }
  set (q := gain * aa / 65536) in *. set (h := sample / 2) in *.
  destruct pg.
  - rewrite (wrap64_id (h + q)) by (unfold_ranges; lia).
    rewrite Z.gtb_ltb.
    destruct (Z.ltb_spec INT32_MAX (h + q)) as [H1|H1].
    + destruct (Z.ltb_spec INT32_MAX INT32_MIN) as [H2|H2];
        [unfold_ranges; lia|].
      rewrite wrap32_id; unfold_ranges; lia.
    + destruct (Z.ltb_spec (h + q) INT32_MIN) as [H2|H2];
        rewrite wrap32_id; unfold_ranges; lia.
  - rewrite (wrap64_id (sample + q)) by (unfold_ranges; lia).
    rewrite Z.gtb_ltb.
    destruct (Z.ltb_spec INT32_MAX (sample + q)) as [H1|H1].
    + destruct (Z.ltb_spec INT32_MAX INT32_MIN) as [H2|H2];
        [unfold_ranges; lia|].
      rewrite wrap32_id; unfold_ranges; lia.
    + destruct (Z.ltb_spec (sample + q) INT32_MIN) as [H2|H2];
        rewrite wrap32_id; unfold_ranges; lia.
Qed.

Lemma clamp32_range x : in_int32 (clamp32 x).
Proof. unfold clamp32. unfold_ranges. lia. Qed.

Lemma channel_body_mixer s ch sample :
  v_mixer_out (snd (channel_body s ch sample)) =
  mixer sample (v_antialias_out (snd (channel_body s ch sample)))
        (gain_q16 s) (pregain s).
Proof. reflexivity. Qed.

Lemma nth_store {A} (l : list A) n v d :
  (n < length l)%nat -> nth n (store l n v) d = v.
Proof.
  revert n. induction l as [|h t IH]; intros n Hn; simpl in Hn; [lia|].
  destruct n; simpl; [reflexivity|]. apply IH. lia.
Qed.

Lemma nth_store_other {A} (l : list A) n m v d :
  n <> m -> nth m (store l n v) d = nth m l d.
Proof.
  revert n m. induction l as [|h t IH]; intros n m Hnm; simpl.
  - destruct n; reflexivity.
  - destruct n, m; simpl; try reflexivity; try lia. apply IH. lia.
Qed.

Lemma length_store {A} (l : list A) n v : length (store l n v) = length l.
Proof.
  revert n. induction l as [|h t IH]; intros n; simpl; [destruct n; reflexivity|].
  destruct n; simpl; [reflexivity|]. rewrite IH. reflexivity.
Qed.

(** The sample that the channel loop leaves in the buffer is the mixer's
    result for the sample it read. *)
Lemma process_channel_writes_mixer_out s b i ch :
  (Z.to_nat i < length (get2 (p32 b) ch))%nat ->
  buf_read (snd (process_channel i ch (s, b))) ch i =
  v_mixer_out (snd (channel_body s ch (buf_read b ch i))).
Proof.
  intros Hlen. unfold process_channel.
  destruct (channel_body s ch (buf_read b ch i)) as [s' v]. simpl.
  unfold buf_read, buf_write. simpl. rewrite get2_set2_same.
  apply nth_store. exact Hlen.
Qed.

(** C1.  For every 32-bit original sample, every 32-bit anti-alias
    output, every gain up to the table maximum and either pregain
    setting, the value the mixer writes back lies in
    [INT32_MIN, INT32_MAX] and is the saturation of the exact mix (the
    64-bit sum does not wrap); with original = INT32_MAX, the maximal
    gain, anti-alias output = INT32_MAX and no pregain it is exactly
    INT32_MAX. *)
Theorem mixer_output_saturated (sample aa gain : Z) (pg : bool) :
  in_int32 sample -> in_int32 aa ->
  in_int32 gain -> gain <= GAIN_TABLE_MAX_Q16 ->
  in_int32 (mixer sample aa gain pg) /\
  mixer sample aa gain pg = clamp32 (mix_exact sample aa gain pg) /\
  mixer INT32_MAX INT32_MAX GAIN_TABLE_MAX_Q16 false = INT32_MAX.
Proof.
  intros Hs Ha Hg Hmax.
  rewrite (mixer_saturates sample aa gain pg Hs Ha Hg).
  split; [apply clamp32_range|]. split; [reflexivity|].
  vm_compute. reflexivity.
Qed.

Lemma mixer_output_saturated_witness :
  in_int32 (mixer INT32_MIN INT32_MIN GAIN_TABLE_MAX_Q16 true) /\
  mixer INT32_MAX INT32_MAX GAIN_TABLE_MAX_Q16 false = INT32_MAX.
Proof.
  destruct (mixer_output_saturated INT32_MIN INT32_MIN GAIN_TABLE_MAX_Q16 true)
    as [H1 [_ H3]].
  - unfold_ranges; lia.
  - unfold_ranges; lia.
  - unfold_ranges; lia.
  - lia.
  - split; assumption.
Defined.

(** ** The one-pole low-pass step *)

(** With a coefficient in [0, 2^16] the accumulator is a convex
    combination of the input and the previous output, scaled by 2^16. *)
Lemma lowpass_acc_bounds alpha x prev :
  0 <= alpha <= 65536 ->
  Z.min x prev * 65536 <= lowpass_acc alpha x prev <= Z.max x prev * 65536.
Proof.
  intros Ha. unfold lowpass_acc.
  destruct (Z.le_ge_cases x prev) as [H|H].
  - rewrite Z.min_l, Z.max_r by lia. nia.
  - rewrite Z.min_r, Z.max_l by lia. nia.
Qed.

Lemma lowpass_q16_exact alpha x prev :
  0 <= alpha <= 65536 -> in_int32 x -> in_int32 prev ->
  in_int64 (alpha * x) /\
  in_int64 ((65536 - alpha) * prev) /\
  in_int64 (lowpass_acc alpha x prev) /\
  lowpass_q16 alpha x prev = Z.shiftr (lowpass_acc alpha x prev) 16 /\
  Z.min x prev <= lowpass_q16 alpha x prev <= Z.max x prev.
Proof.
  intros Ha Hx Hp.
  pose proof (lowpass_acc_bounds alpha x prev Ha) as Hacc.
  assert (H1 : in_int64 (alpha * x)) by (unfold_ranges; nia).
  assert (H2 : in_int64 ((65536 - alpha) * prev)) by (unfold_ranges; nia).
  assert (H3 : in_int64 (lowpass_acc alpha x prev)).
  { unfold_ranges. lia. }
  assert (H4 : Z.min x prev <= lowpass_acc alpha x prev / 65536 <= Z.max x prev).
  { apply div65536_bounds; lia. }
  assert (H5 : lowpass_q16 alpha x prev = Z.shiftr (lowpass_acc alpha x prev) 16).
  { unfold lowpass_q16. change (Z.shiftl 1 16) with 65536.
    rewrite (wrap32_id (65536 - alpha)) by (unfold_ranges; lia).
    rewrite (wrap64_id _ H1), (wrap64_id _ H2).
    fold (lowpass_acc alpha x prev). rewrite (wrap64_id _ H3).
    rewrite shiftr16. apply wrap32_id. unfold_ranges. lia. }
  split; [exact H1|]. split; [exact H2|]. split; [exact H3|].
  split; [exact H5|]. rewrite H5, shiftr16. exact H4.
Qed.

Lemma lowpass_q16_in_int32 alpha x prev : in_int32 (lowpass_q16 alpha x prev).
Proof. apply wrap32_range. Qed.

Lemma in_int32_set2 (a : arr2 Z) ch v :
  (forall c, in_int32 (get2 a c)) -> in_int32 v ->
  forall c, in_int32 (get2 (set2 a ch v) c).
Proof.
  intros Ha Hv c. pose proof (Ha 0) as H0. pose proof (Ha 1) as H1.
  unfold get2, set2 in *. simpl in H0, H1.
  destruct (ch =? 0), (c =? 0); simpl; assumption.
Qed.

(** The loop body keeps every filter memory a 32-bit value, whatever the
    input. *)
Lemma channel_body_cells s ch x :
  cells_in_int32 s -> cells_in_int32 (fst (channel_body s ch x)).
Proof.
  intros Hc c. unfold channel_body. simpl.
  assert (Hpc : forall c, in_int32 (get2 (prev_crossover_out s) c))
    by (intro c'; apply (Hc c')).
  assert (Hh : forall c, in_int32 (get2 (subharmonic_hold_q16 s) c))
    by (intro c'; apply (Hc c')).
  assert (Hpa : forall c, in_int32 (get2 (prev_antialias_out_q16 s) c))
    by (intro c'; apply (Hc c')).
  split; [|split].
  - apply in_int32_set2; [assumption | apply lowpass_q16_in_int32].
  - destruct (get2 (toggle_state s) ch =? 0).
    + apply in_int32_set2; [assumption | apply lowpass_q16_in_int32].
    + apply Hh.
  - apply in_int32_set2; [assumption | apply lowpass_q16_in_int32].
Qed.

Lemma channel_body_coefficients s ch x :
  let s' := fst (channel_body s ch x) in
  alpha_q16 s' = alpha_q16 s /\ gain_q16 s' = gain_q16 s /\
  pregain s' = pregain s /\ samplerate s' = samplerate s /\
  global_settings s' = global_settings s.
Proof. simpl. repeat split. Qed.

(** C10.  When [0 <= alpha_q16 <= 2^16], the input sample is a 32-bit
    value and the filter memories are 32-bit values, then in one run of
    the channel loop body both one-pole steps accumulate without leaving
    the 64-bit range, their shifted accumulators lie in
    [INT32_MIN, INT32_MAX], the narrowing conversion stores exactly those
    values in the crossover and anti-alias memories, and all memories of
    both channels are 32-bit values afterwards. *)
Theorem filter_state_stays_in_int32 (s : state) (ch sample : Z) :
  0 <= alpha_q16 s <= 2 ^ 16 ->
  cells_in_int32 s ->
  in_int32 sample ->
  let s' := fst (channel_body s ch sample) in
  let v := snd (channel_body s ch sample) in
  let acc1 :=
    lowpass_acc (alpha_q16 s) sample (get2 (prev_crossover_out s) ch) in
  let acc2 :=
    lowpass_acc (alpha_q16 s) (v_subharmonic_out v)
                (get2 (prev_antialias_out_q16 s) ch) in
  in_int64 acc1 /\ in_int32 (Z.shiftr acc1 16) /\
  v_crossover_out v = Z.shiftr acc1 16 /\
  get2 (prev_crossover_out s') ch = Z.shiftr acc1 16 /\
  in_int64 acc2 /\ in_int32 (Z.shiftr acc2 16) /\
  v_antialias_out v = Z.shiftr acc2 16 /\
  get2 (prev_antialias_out_q16 s') ch = Z.shiftr acc2 16 /\
  cells_in_int32 s'.
Proof.
  intros Ha Hc Hx s' v acc1 acc2.
  change (2 ^ 16) with 65536 in Ha.
  destruct (Hc ch) as [Hpc [Hh Hpa]].
  destruct (lowpass_q16_exact _ _ _ Ha Hx Hpc) as [_ [_ [A1 [E1 _]]]].
  fold acc1 in A1, E1.
  assert (Hco : v_crossover_out v = Z.shiftr acc1 16) by exact E1.
  assert (Hsub : in_int32 (v_subharmonic_out v)).
  { subst v. unfold channel_body. simpl.
    destruct (get2 (toggle_state s) ch =? 0).
    - rewrite get2_set2_same. apply lowpass_q16_in_int32.
    - exact Hh. }
  destruct (lowpass_q16_exact _ _ _ Ha Hsub Hpa) as [_ [_ [A2 [E2 _]]]].
  fold acc2 in A2, E2.
  assert (Hao : v_antialias_out v = Z.shiftr acc2 16) by exact E2.
  split; [exact A1|].
  split; [rewrite <- Hco; apply lowpass_q16_in_int32|].
  split; [exact Hco|].
  split; [subst s'; unfold channel_body; simpl; rewrite get2_set2_same; exact E1|].
  split; [exact A2|].
  split; [rewrite <- Hao; apply lowpass_q16_in_int32|].
  split; [exact Hao|].
  split; [subst s'; unfold channel_body; simpl; rewrite get2_set2_same; exact E2|].
  apply channel_body_cells. exact Hc.
Qed.

Lemma filter_state_stays_in_int32_witness :
  get2 (prev_crossover_out
          (fst (channel_body (recompute (state_with 100 44100)) 0 1000000))) 0
  = 14038.
Proof.
  destruct (filter_state_stays_in_int32 (recompute (state_with 100 44100))
              0 1000000) as [_ [_ [_ [E _]]]].
  - vm_compute. split; congruence.
  - intro c. unfold get2. destruct (c =? 0); vm_compute;
      repeat split; congruence.
  - vm_compute. split; congruence.
  - rewrite E. reflexivity.
Defined.

(** ** The sample-and-hold stage *)

Lemma run_channel_cons_fst s ch x xs :
  fst (run_channel s ch (x :: xs)) =
  fst (run_channel (fst (channel_body s ch x)) ch xs).
Proof.
  cbn [run_channel]. destruct (channel_body s ch x) as [s1 v]. cbn [fst].
  destruct (run_channel s1 ch xs) as [s2 vs]. reflexivity.
Qed.

Lemma state_before_0 s ch xs : state_before s ch xs 0 = s.
Proof. reflexivity. Qed.

Lemma state_before_cons s ch x xs n :
  state_before s ch (x :: xs) (S n) =
  state_before (fst (channel_body s ch x)) ch xs n.
Proof. unfold state_before. simpl firstn. apply run_channel_cons_fst. Qed.

(** The state before sample [n + 1] is the state the loop body leaves
    after sample [n]. *)
Lemma state_before_S s ch xs n :
  (n < length xs)%nat ->
  state_before s ch xs (S n) =
  fst (channel_body (state_before s ch xs n) ch (nth n xs 0)).
Proof.
  revert s n. induction xs as [|x xs IH]; intros s n Hn; simpl in Hn; [lia|].
  destruct n as [|n].
  - rewrite state_before_cons, !state_before_0. reflexivity.
  - rewrite !state_before_cons. simpl nth. apply IH. lia.
Qed.

Lemma channel_body_toggle s ch x :
  get2 (toggle_state (fst (channel_body s ch x))) ch =
  Z.lxor (get2 (toggle_state s) ch) 1.
Proof. unfold channel_body. simpl. apply get2_set2_same. Qed.

Lemma channel_body_hold s ch x :
  get2 (subharmonic_hold_q16 (fst (channel_body s ch x))) ch =
  if get2 (toggle_state s) ch =? 0
  then v_crossover_out (snd (channel_body s ch x))
  else get2 (subharmonic_hold_q16 s) ch.
Proof.
  unfold channel_body. simpl.
  destruct (get2 (toggle_state s) ch =? 0);
    [apply get2_set2_same | reflexivity].
Qed.

Lemma channel_body_subharmonic_out s ch x :
  v_subharmonic_out (snd (channel_body s ch x)) =
  get2 (subharmonic_hold_q16 (fst (channel_body s ch x))) ch.
Proof. reflexivity. Qed.

Section SampleAndHold.

Variable s0 : state.
Variable ch : Z.
Variable xs : list Z.
Hypothesis toggle_reset : get2 (toggle_state s0) ch = 0.

(** From a reset toggle, the toggle before sample [n] is the parity of
    [n]. *)
Lemma toggle_parity n :
  (n <= length xs)%nat ->
  get2 (toggle_state (state_before s0 ch xs n)) ch =
  if Nat.even n then 0 else 1.
Proof.
  induction n as [|n IH]; intros Hn.
  - rewrite state_before_0. exact toggle_reset.
  - rewrite state_before_S by lia. rewrite channel_body_toggle, IH by lia.
    rewrite Nat.even_succ, <- Nat.negb_even.
    destruct (Nat.even n); reflexivity.
Qed.

Lemma hold_update n :
  (n < length xs)%nat ->
  get2 (subharmonic_hold_q16 (state_before s0 ch xs (S n))) ch =
  if Nat.even n
  then v_crossover_out (stages_at s0 ch xs n)
  else get2 (subharmonic_hold_q16 (state_before s0 ch xs n)) ch.
Proof.
  intros Hn. rewrite state_before_S by exact Hn.
  rewrite channel_body_hold, toggle_parity by lia.
  destruct (Nat.even n); reflexivity.
Qed.

Lemma subharmonic_out_is_hold n :
  (n < length xs)%nat ->
  v_subharmonic_out (stages_at s0 ch xs n) =
  get2 (subharmonic_hold_q16 (state_before s0 ch xs (S n))) ch.
Proof.
  intros Hn. rewrite state_before_S by exact Hn.
  unfold stages_at. apply channel_body_subharmonic_out.
Qed.

Lemma subharmonic_out_pairs n :
  (n < length xs)%nat ->
  if Nat.even n
  then v_subharmonic_out (stages_at s0 ch xs n) =
       v_crossover_out (stages_at s0 ch xs n)
  else v_subharmonic_out (stages_at s0 ch xs n) =
       v_subharmonic_out (stages_at s0 ch xs (pred n)).
Proof.
  intros Hn. rewrite subharmonic_out_is_hold, hold_update by exact Hn.
  destruct (Nat.even n) eqn:E; [reflexivity|].
  destruct n as [|m]; [discriminate E|].
  simpl pred. rewrite subharmonic_out_is_hold by lia. reflexivity.
Qed.

End SampleAndHold.

Lemma flush_state_toggle s ch : get2 (toggle_state (flush_state s)) ch = 0.
Proof. unfold get2. simpl. destruct (ch =? 0); reflexivity. Qed.

Lemma stages_at_cons s c x xs n :
  stages_at s c (x :: xs) (S n) = stages_at (fst (channel_body s c x)) c xs n.
Proof. unfold stages_at. rewrite state_before_cons. reflexivity. Qed.

Lemma channel_body_crossover_out s ch x :
  v_crossover_out (snd (channel_body s ch x)) =
  lowpass_q16 (alpha_q16 s) x (get2 (prev_crossover_out s) ch).
Proof. reflexivity. Qed.

Lemma channel_body_prev_crossover s ch x :
  get2 (prev_crossover_out (fst (channel_body s ch x))) ch =
  lowpass_q16 (alpha_q16 s) x (get2 (prev_crossover_out s) ch).
Proof. unfold channel_body. cbn -[lowpass_q16 mixer]. apply get2_set2_same. Qed.

Lemma state_before_alpha ch xs : forall s n,
  alpha_q16 (state_before s ch xs n) = alpha_q16 s.
Proof.
  induction xs as [|x xs IH]; intros s n.
  - destruct n; reflexivity.
  - destruct n as [|n]; [reflexivity|].
    rewrite state_before_cons, IH. reflexivity.
Qed.

(** The crossover stage of the loop body computes the crossover filter of
    the channel's input, whatever the other stages do. *)
Lemma crossover_out_is_filter ch xs : forall s n,
  (n < length xs)%nat ->
  v_crossover_out (stages_at s ch xs n) =
  nth n (crossover_outputs (alpha_q16 s) (get2 (prev_crossover_out s) ch) xs) 0.
Proof.
  induction xs as [|x xs IH]; intros s n Hn; simpl in Hn; [lia|].
  destruct n as [|n].
  - reflexivity.
  - rewrite stages_at_cons, IH by lia.
    rewrite channel_body_prev_crossover. reflexivity.
Qed.

(** C3.  On a stream that starts in a freshly flushed state (toggle 0),
    for every sample number [n] of a channel: the toggle before the
    sample is the parity of [n] and is flipped by the sample; the held
    register is overwritten with the crossover output exactly when [n] is
    even (the first sample and every second one thereafter) and is left
    unchanged otherwise; the stage's output is the held register after
    the update; hence the output of an even sample is its crossover
    output and the output of the following odd sample repeats it.  The
    crossover output is the low-pass step of the current input and the
    crossover memory, which it replaces; so, against the crossover
    filter run on its own over the input, the held register and the
    stage's output at sample [n] are that filter's output at [n] for even
    [n] and at [n - 1] for odd [n]. *)
Theorem sample_and_hold_period_two (s : state) (ch : Z) (xs : list Z) (n : nat) :
  (n < length xs)%nat ->
  let s0 := flush_state s in
  let before := state_before s0 ch xs n in
  let after := state_before s0 ch xs (S n) in
  let v := stages_at s0 ch xs n in
  get2 (toggle_state before) ch = (if Nat.even n then 0 else 1) /\
  get2 (toggle_state after) ch = Z.lxor (get2 (toggle_state before) ch) 1 /\
  get2 (toggle_state after) ch = 1 - get2 (toggle_state before) ch /\
  get2 (subharmonic_hold_q16 after) ch =
    (if Nat.even n then v_crossover_out v
     else get2 (subharmonic_hold_q16 before) ch) /\
  v_subharmonic_out v = get2 (subharmonic_hold_q16 after) ch /\
  (if Nat.even n
   then v_subharmonic_out v = v_crossover_out v
   else v_subharmonic_out v =
        v_subharmonic_out (stages_at s0 ch xs (pred n))) /\
  v_crossover_out v =
    lowpass_q16 (alpha_q16 s) (nth n xs 0)
                (get2 (prev_crossover_out before) ch) /\
  get2 (prev_crossover_out after) ch = v_crossover_out v /\
  v_crossover_out v = nth n (crossover_outputs (alpha_q16 s) 0 xs) 0 /\
  get2 (subharmonic_hold_q16 after) ch =
    nth (if Nat.even n then n else pred n)
        (crossover_outputs (alpha_q16 s) 0 xs) 0 /\
  v_subharmonic_out v =
    nth (if Nat.even n then n else pred n)
        (crossover_outputs (alpha_q16 s) 0 xs) 0.
Proof.
  intros Hn s0 before after v.
  pose proof (flush_state_toggle s ch) as Hreset. fold s0 in Hreset.
  assert (Hb : get2 (toggle_state before) ch = if Nat.even n then 0 else 1)
    by (apply toggle_parity; [exact Hreset | lia]).
  assert (Ha : get2 (toggle_state after) ch =
               Z.lxor (get2 (toggle_state before) ch) 1).
  { unfold after. rewrite state_before_S by exact Hn.
    apply channel_body_toggle. }
  assert (Hco : forall m, (m < length xs)%nat ->
                v_crossover_out (stages_at s0 ch xs m) =
                nth m (crossover_outputs (alpha_q16 s) 0 xs) 0).
  { intros m Hm. rewrite crossover_out_is_filter by exact Hm.
    replace (get2 (prev_crossover_out s0) ch) with 0
      by (unfold s0, get2; simpl; destruct (ch =? 0); reflexivity).
    reflexivity. }
  assert (Hhold : get2 (subharmonic_hold_q16 after) ch =
                  nth (if Nat.even n then n else pred n)
                      (crossover_outputs (alpha_q16 s) 0 xs) 0).
  { unfold after. rewrite (hold_update s0 ch xs Hreset n Hn).
    destruct (Nat.even n) eqn:E; [apply Hco; exact Hn|].
    destruct n as [|m]; [discriminate E|]. cbn [pred].
    rewrite (hold_update s0 ch xs Hreset m ltac:(lia)).
    rewrite Nat.even_succ, <- Nat.negb_even in E.
    destruct (Nat.even m); [|discriminate E].
    apply Hco. lia. }
  split; [exact Hb|]. split; [exact Ha|].
  split; [rewrite Ha, Hb; destruct (Nat.even n); reflexivity|].
  split; [apply hold_update; assumption|].
  split; [apply subharmonic_out_is_hold; assumption|].
  split; [apply subharmonic_out_pairs; assumption|].
  split.
  { unfold v, stages_at. fold before. rewrite channel_body_crossover_out.
    unfold before. rewrite state_before_alpha. reflexivity. }
  split.
  { unfold after. rewrite state_before_S by exact Hn. fold before.
    rewrite channel_body_prev_crossover. reflexivity. }
  split; [apply Hco; exact Hn|].
  split; [exact Hhold|].
  unfold v. rewrite (subharmonic_out_is_hold s0 ch xs n Hn). exact Hhold.
Qed.

Lemma sample_and_hold_period_two_witness :
  v_subharmonic_out
    (stages_at (flush_state (recompute (state_with 100 44100))) 0
               [1000000; -1000000; 1000000; -1000000] 3)
  = v_subharmonic_out
    (stages_at (flush_state (recompute (state_with 100 44100))) 0
               [1000000; -1000000; 1000000; -1000000] 2)
  /\
  v_subharmonic_out
    (stages_at (flush_state (recompute (state_with 100 44100))) 0
               [1000000; -1000000; 1000000; -1000000] 3)
  = 13842.
Proof.
  destruct (sample_and_hold_period_two (recompute (state_with 100 44100)) 0
              [1000000; -1000000; 1000000; -1000000] 3)
    as [_ [_ [_ [_ [_ [H [_ [_ [_ [_ H']]]]]]]]]].
  - simpl; lia.
  - split; [exact H|]. rewrite H'. reflexivity.
Defined.

(** ** Lifecycle events *)

(** C4.  The flush event zeroes the crossover memory, the held sample,
    the anti-alias memory and the toggle of both channels and leaves
    [alpha_q16], [gain_q16], [pregain], the cached sample rate, the
    settings and the process entry unchanged. *)
Theorem flush_resets_channel_state_only
        (this : dsp_proc_entry) (out_freq : Z) (s : state) :
  let s' := fst (fst (configure this out_freq DSP_FLUSH s)) in
  prev_crossover_out s' = (0, 0) /\
  subharmonic_hold_q16 s' = (0, 0) /\
  prev_antialias_out_q16 s' = (0, 0) /\
  toggle_state s' = (0, 0) /\
  alpha_q16 s' = alpha_q16 s /\
  gain_q16 s' = gain_q16 s /\
  pregain s' = pregain s /\
  samplerate s' = samplerate s /\
  global_settings s' = global_settings s /\
  snd (fst (configure this out_freq DSP_FLUSH s)) = this.
Proof. simpl. repeat split. Qed.

(** C8.  The sample-rate-change event caches the new sample rate,
    recomputes [alpha_q16], [gain_q16] and [pregain] from the settings
    and the new rate, and leaves the filter memories, held samples and
    toggles of both channels unchanged. *)
Theorem rate_change_recomputes_and_keeps_channel_state
        (this : dsp_proc_entry) (out_freq : Z) (s : state) :
  in_int32 out_freq ->
  let s' := fst (fst (configure this out_freq DSP_SET_OUT_FREQUENCY s)) in
  samplerate s' = out_freq /\
  alpha_q16 s' =
    alpha_of (subharmonic_crossover (global_settings s)) out_freq /\
  gain_q16 s' = gain_lookup (subharmonic_level (global_settings s)) /\
  pregain s' = subharmonic_pregain (global_settings s) /\
  prev_crossover_out s' = prev_crossover_out s /\
  subharmonic_hold_q16 s' = subharmonic_hold_q16 s /\
  prev_antialias_out_q16 s' = prev_antialias_out_q16 s /\
  toggle_state s' = toggle_state s /\
  global_settings s' = global_settings s.
Proof.
  intros Hf s'. subst s'. cbn [configure fst].
  rewrite recompute_alpha, recompute_gain.
  unfold recompute, set_samplerate. cbn.
  rewrite (wrap32_id _ Hf). repeat split.
Qed.

Lemma rate_change_recomputes_and_keeps_channel_state_witness :
  samplerate
    (fst (fst (configure (mkEntry true) 48000 DSP_SET_OUT_FREQUENCY
                         (state_with 100 44100)))) = 48000.
Proof.
  destruct (rate_change_recomputes_and_keeps_channel_state
              (mkEntry true) 48000 (state_with 100 44100)) as [H _].
  - unfold_ranges; lia.
  - exact H.
Defined.

(** C9.  When the enable flag is off, [process] returns at once: the
    buffer and the whole state, in particular every filter memory, are
    unchanged. *)
Theorem process_disabled_is_noop (s : state) (b : dsp_buffer) :
  subharmonic_enable (global_settings s) = false ->
  process s b = (s, b).
Proof. intros H. unfold process. rewrite H. reflexivity. Qed.

Lemma process_disabled_is_noop_witness :
  process (initial_state (mkSettings false 100 0 false))
          (mkBuffer 2 ([5; -7], [11; 13]) 2)
  = (initial_state (mkSettings false 100 0 false),
     mkBuffer 2 ([5; -7], [11; 13]) 2).
Proof.
  apply process_disabled_is_noop. reflexivity.
Defined.

(** After the crossover setter and a sample-rate change, the coefficient
    is the one of the cutoff held in the settings, whatever [hz] was
    passed to the setter. *)
Lemma rate_change_after_setter_uses_settings_cutoff this out_freq hz s :
  alpha_q16 (fst (fst (configure this out_freq DSP_SET_OUT_FREQUENCY
                                 (sound_set_subharmonic_crossover hz s)))) =
  alpha_of (subharmonic_crossover (global_settings s)) (wrap32 out_freq).
Proof. reflexivity. Qed.

Lemma crossover_setter_keeps_settings hz s :
  global_settings (sound_set_subharmonic_crossover hz s) = global_settings s.
Proof. reflexivity. Qed.

(** C7 (evaluation of the code).  With the cutoff 100 in the settings
    and the sample rate 44100, [sound_set_subharmonic_crossover 200]
    stores the coefficient of 200 Hz (1815); the following sample-rate
    change to 48000 stores 846, the coefficient of the settings' 100 Hz
    at 48000, not 1671, the coefficient of 200 Hz at 48000. *)
Theorem rate_change_after_setter_reverts_to_settings_cutoff :
  let s0 := recompute (state_with 100 44100) in
  let s1 := sound_set_subharmonic_crossover 200 s0 in
  let s2 := fst (fst (configure (mkEntry true) 48000
                                DSP_SET_OUT_FREQUENCY s1)) in
  alpha_q16 s1 = 1815 /\
  alpha_q16 s2 = 846 /\
  alpha_of 100 48000 = 846 /\
  alpha_of 200 48000 = 1671 /\
  alpha_q16 s2 <> alpha_of 200 48000.
Proof. vm_compute. repeat split; congruence. Qed.

(** ** [process] as independent runs of the channels *)

Lemma agree_on_refl c s : agree_on c s s.
Proof. repeat split. Qed.

Lemma agree_on_trans c s t u : agree_on c s t -> agree_on c t u -> agree_on c s u.
Proof.
  unfold agree_on. intros [A1 [A2 [A3 A4]]] [B1 [B2 [B3 B4]]].
  repeat split; congruence.
Qed.

(** The loop body of a channel only looks at that channel's cells and at
    the coefficients. *)
Lemma channel_body_agree c s t x :
  agree_on c s t ->
  agree_on c (fst (channel_body s c x)) (fst (channel_body t c x)) /\
  snd (channel_body s c x) = snd (channel_body t c x).
Proof.
  unfold agree_on, chan_cells. intros [Hc [Ha [Hg Hp]]].
  injection Hc as H1 H2 H3 H4.
  unfold channel_body. cbn -[lowpass_q16 mixer].
  rewrite <- Ha, <- Hg, <- Hp, <- H1, <- H3, <- H4.
  destruct (get2 (toggle_state s) c =? 0);
    rewrite ?get2_set2_same, <- ?H2; repeat split; reflexivity.
Qed.

(** The loop body of one channel leaves the other channel's cells
    alone. *)
Lemma channel_body_other c c' s x :
  (c' =? 0) <> (c =? 0) ->
  agree_on c (fst (channel_body s c' x)) s.
Proof.
  intros Hne. unfold agree_on, chan_cells, channel_body.
  cbn -[lowpass_q16 mixer].
  destruct (get2 (toggle_state s) c' =? 0);
    rewrite ?get2_set2_other by exact Hne; repeat split; reflexivity.
Qed.

Lemma run_channel_agree c xs : forall s t,
  agree_on c s t ->
  agree_on c (fst (run_channel s c xs)) (fst (run_channel t c xs)) /\
  snd (run_channel s c xs) = snd (run_channel t c xs).
Proof.
  induction xs as [|x xs IH]; intros s t H; [split; [exact H | reflexivity]|].
  destruct (channel_body_agree c s t x H) as [H1 H2].
  destruct (IH _ _ H1) as [H3 H4].
  cbn [run_channel].
  destruct (channel_body s c x) as [s1 v1], (channel_body t c x) as [t1 v1'].
  cbn [fst snd] in *. subst v1'.
  destruct (run_channel s1 c xs) as [s2 vs], (run_channel t1 c xs) as [t2 vs'].
  cbn [fst snd] in *. subst vs'. split; [exact H3 | reflexivity].
Qed.

Lemma process_channel_eq i ch s b :
  process_channel i ch (s, b) =
  (fst (channel_body s ch (buf_read b ch i)),
   buf_write b ch i (v_mixer_out (snd (channel_body s ch (buf_read b ch i))))).
Proof.
  unfold process_channel.
  destruct (channel_body s ch (buf_read b ch i)); reflexivity.
Qed.

(** One sample of the outer loop, seen from channel [c]. *)
Lemma process_sample_channel c i s b :
  (c = 0 \/ c = 1) -> c < num_channels b ->
  let r := process_sample i (s, b) in
  let body := channel_body s c (buf_read b c i) in
  agree_on c (fst r) (fst body) /\
  get2 (p32 (snd r)) c =
    store (get2 (p32 b) c) (Z.to_nat i) (v_mixer_out (snd body)) /\
  num_channels (snd r) = num_channels b.
Proof.
  intros Hc Hn. unfold process_sample. cbn [snd].
  destruct Hc as [-> | ->].
  - assert (E0 : (0 <? num_channels b) = true) by (apply Z.ltb_lt; lia).
    rewrite E0, process_channel_eq.
    destruct (1 <? num_channels b).
    + rewrite process_channel_eq. cbn [fst snd].
      split; [|split; [|reflexivity]].
      * apply channel_body_other. discriminate.
      * unfold buf_write. cbn [p32]. rewrite get2_set2_other by discriminate.
        apply get2_set2_same.
    + cbn [fst snd]. split; [apply agree_on_refl|].
      split; [|reflexivity]. unfold buf_write. cbn [p32].
      apply get2_set2_same.
  - assert (E0 : (0 <? num_channels b) = true) by (apply Z.ltb_lt; lia).
    assert (E1 : (1 <? num_channels b) = true) by (apply Z.ltb_lt; lia).
    rewrite E0, E1, !process_channel_eq. cbn [fst snd].
    set (s1 := fst (channel_body s 0 (buf_read b 0 i))).
    set (v1 := v_mixer_out (snd (channel_body s 0 (buf_read b 0 i)))).
    assert (R : buf_read (buf_write b 0 i v1) 1 i = buf_read b 1 i).
    { unfold buf_read, buf_write. cbn [p32].
      rewrite get2_set2_other by discriminate. reflexivity. }
    rewrite R.
    assert (A : agree_on 1 s1 s) by (apply channel_body_other; discriminate).
    destruct (channel_body_agree 1 s1 s (buf_read b 1 i) A) as [A1 A2].
    split; [exact A1|]. split; [|reflexivity].
    unfold buf_write. cbn [p32]. rewrite get2_set2_same, A2.
    rewrite get2_set2_other by discriminate. reflexivity.
Qed.

Lemma firstn_store {A} (l : list A) k v :
  (k < length l)%nat -> firstn (S k) (store l k v) = firstn k l ++ [v].
Proof.
  revert k. induction l as [|h t IH]; intros k Hk; simpl in Hk; [lia|].
  destruct k as [|k]; [reflexivity|].
  change (h :: firstn (S k) (store t k v) = h :: (firstn k t ++ [v])).
  rewrite IH by lia. reflexivity.
Qed.

Lemma skipn_store {A} (l : list A) k m v :
  (k < m)%nat -> skipn m (store l k v) = skipn m l.
Proof.
  revert k m. induction l as [|h t IH]; intros k m Hkm.
  - destruct k; reflexivity.
  - destruct m as [|m]; [lia|]. destruct k as [|k]; [reflexivity|].
    simpl. apply IH. lia.
Qed.

Lemma skipn_nth_cons {A} (l : list A) k d :
  (k < length l)%nat -> skipn k l = nth k l d :: skipn (S k) l.
Proof.
  revert k. induction l as [|h t IH]; intros k Hk; simpl in Hk; [lia|].
  destruct k as [|k]; [reflexivity|]. simpl. apply IH. lia.
Qed.

Lemma run_channel_cons s c x xs :
  run_channel s c (x :: xs) =
  (fst (run_channel (fst (channel_body s c x)) c xs),
   snd (channel_body s c x) :: snd (run_channel (fst (channel_body s c x)) c xs)).
Proof.
  cbn [run_channel]. destruct (channel_body s c x) as [s1 v]. cbn [fst snd].
  destruct (run_channel s1 c xs); reflexivity.
Qed.

(** The outer loop, seen from channel [c]: its cells evolve as in a run
    of the loop body over the channel's samples, and the processed part
    of the channel's buffer holds the mixer outputs of that run. *)
Lemma process_loop_channel c :
  (c = 0 \/ c = 1) ->
  forall n k s t b,
    c < num_channels b ->
    agree_on c s t ->
    (k + n <= length (get2 (p32 b) c))%nat ->
    agree_on c (fst (process_loop n (Z.of_nat k) (s, b)))
             (fst (run_channel t c (firstn n (skipn k (get2 (p32 b) c))))) /\
    get2 (p32 (snd (process_loop n (Z.of_nat k) (s, b)))) c =
      firstn k (get2 (p32 b) c)
      ++ map v_mixer_out
             (snd (run_channel t c (firstn n (skipn k (get2 (p32 b) c)))))
      ++ skipn (k + n) (get2 (p32 b) c).
Proof.
  intros Hc. induction n as [|n IH]; intros k s t b Hn Hst Hlen.
  - cbn [process_loop firstn run_channel fst snd map app].
    rewrite Nat.add_0_r, firstn_skipn. split; [exact Hst | reflexivity].
  - cbn [process_loop].
    replace (Z.of_nat k + 1) with (Z.of_nat (S k)) by lia.
    destruct (process_sample_channel c (Z.of_nat k) s b Hc Hn) as [P1 [P2 P3]].
    destruct (process_sample (Z.of_nat k) (s, b)) as [s' b'].
    cbn [fst snd] in P1, P2, P3.
    assert (Hread : buf_read b c (Z.of_nat k) = nth k (get2 (p32 b) c) 0)
      by (unfold buf_read; rewrite Nat2Z.id; reflexivity).
    rewrite Hread, Nat2Z.id in *.
    set (L := get2 (p32 b) c) in *. set (x := nth k L 0) in *.
    destruct (channel_body_agree c s t x Hst) as [B1 B2].
    assert (Hk : (k < length L)%nat) by lia.
    destruct (IH (S k) s' (fst (channel_body t c x)) b') as [I1 I2].
    + rewrite P3. exact Hn.
    + eapply agree_on_trans; [exact P1 | exact B1].
    + rewrite P2, length_store. fold L. lia.
    + rewrite P2 in I1, I2.
      rewrite (skipn_store L k (S k)) in I1, I2 by lia.
      rewrite firstn_store in I2 by exact Hk.
      rewrite (skipn_store L k (S k + n)) in I2 by lia.
      rewrite (skipn_nth_cons L k 0 Hk). fold x.
      cbn [firstn]. rewrite run_channel_cons. cbn [fst snd map].
      split; [exact I1|]. rewrite I2, B2, <- app_assoc.
      replace (k + S n)%nat with (S k + n)%nat by lia. reflexivity.
Qed.

(** [process] on an enabled stage: for each processed channel the cells
    after the call are those of a run over the channel's first
    [remcount] samples, and those samples are replaced by the mixer
    outputs of that run. *)
Lemma process_channel_run c s b :
  subharmonic_enable (global_settings s) = true ->
  (c = 0 \/ c = 1) -> c < num_channels b ->
  (Z.to_nat (remcount b) <= length (get2 (p32 b) c))%nat ->
  let xs := firstn (Z.to_nat (remcount b)) (get2 (p32 b) c) in
  agree_on c (fst (process s b)) (fst (run_channel s c xs)) /\
  get2 (p32 (snd (process s b))) c =
    map v_mixer_out (snd (run_channel s c xs))
    ++ skipn (Z.to_nat (remcount b)) (get2 (p32 b) c).
Proof.
  intros Hen Hc Hn Hlen xs. unfold process. rewrite Hen. cbn [negb].
  destruct (process_loop_channel c Hc (Z.to_nat (remcount b)) 0 s s b
              Hn (agree_on_refl c s)) as [H1 H2]; [simpl; lia|].
  cbn [Z.of_nat skipn firstn app Nat.add] in H1, H2.
  split; assumption.
Qed.

(** ** What [process] leaves unchanged *)

Lemma channel_body_flush s ch x :
  flush_state (fst (channel_body s ch x)) = flush_state s.
Proof. reflexivity. Qed.

Lemma process_sample_flush i s b :
  flush_state (fst (process_sample i (s, b))) = flush_state s.
Proof.
  unfold process_sample. cbn [snd].
  destruct (0 <? num_channels b), (1 <? num_channels b);
    rewrite ?process_channel_eq; cbn [fst]; reflexivity.
Qed.

Lemma process_loop_flush n : forall i s b,
  flush_state (fst (process_loop n i (s, b))) = flush_state s.
Proof.
  induction n as [|n IH]; intros i s b; [reflexivity|].
  cbn [process_loop].
  pose proof (process_sample_flush i s b) as H.
  destruct (process_sample i (s, b)) as [s' b']. cbn [fst] in H.
  rewrite IH. exact H.
Qed.

(** Processing a buffer changes no coefficient, and a flush after it
    gives the same state as a flush before it: after a flush the stage
    behaves as if the earlier buffers had never been processed. *)
Lemma flush_after_process s b :
  flush_state (fst (process s b)) = flush_state s.
Proof.
  unfold process. destruct (negb (subharmonic_enable (global_settings s)));
    [reflexivity | apply process_loop_flush].
Qed.

Lemma process_after_flush_is_fresh s b1 b2 this f :
  process (fst (fst (configure this f DSP_FLUSH (fst (process s b1))))) b2 =
  process (flush_state s) b2.
Proof. cbn [configure fst]. rewrite flush_after_process. reflexivity. Qed.

Lemma process_sample_cells i s b :
  cells_in_int32 s -> cells_in_int32 (fst (process_sample i (s, b))).
Proof.
  intros H. unfold process_sample. cbn [snd].
  destruct (0 <? num_channels b), (1 <? num_channels b);
    rewrite ?process_channel_eq; cbn [fst];
    repeat apply channel_body_cells; exact H.
Qed.

Lemma process_loop_cells n : forall i s b,
  cells_in_int32 s -> cells_in_int32 (fst (process_loop n i (s, b))).
Proof.
  induction n as [|n IH]; intros i s b H; [exact H|].
  cbn [process_loop].
  pose proof (process_sample_cells i s b H) as H'.
  destruct (process_sample i (s, b)) as [s' b']. apply IH. exact H'.
Qed.

(** The filter memories are 32-bit values after every buffer. *)
Lemma process_cells s b :
  cells_in_int32 s -> cells_in_int32 (fst (process s b)).
Proof.
  intros H. unfold process.
  destruct (negb (subharmonic_enable (global_settings s)));
    [exact H | apply process_loop_cells; exact H].
Qed.

Lemma flush_state_cells s : cells_in_int32 (flush_state s).
Proof.
  intro c. unfold get2. simpl.
  destruct (c =? 0); repeat split; unfold_ranges; lia.
Qed.

(** When the settings hold the cutoff that was passed to the setter, the
    coefficient after a sample-rate change is the one of that cutoff and
    the new rate. *)
Lemma rate_change_after_setter_synced this out_freq hz s :
  subharmonic_crossover (global_settings s) = hz ->
  in_int32 out_freq ->
  alpha_q16 (fst (fst (configure this out_freq DSP_SET_OUT_FREQUENCY
                                 (sound_set_subharmonic_crossover hz s)))) =
  alpha_of hz out_freq.
Proof.
  intros Hs Hf. rewrite rate_change_after_setter_uses_settings_cutoff.
  rewrite Hs, (wrap32_id _ Hf). reflexivity.
Qed.

(** ** The gain table *)

Lemma gain_lookup_zero_db : gain_lookup 0 = 65536.
Proof. reflexivity. Qed.

Lemma gain_lookup_max db : GAIN_TABLE_MAX_DB <= db -> gain_lookup db = GAIN_TABLE_MAX_Q16.
Proof.
  intros H. unfold gain_lookup, GAIN_TABLE_MIN_DB, GAIN_TABLE_MAX_DB in *.
  destruct (Z.ltb_spec db (-24)); [lia|].
  rewrite Z.gtb_ltb. destruct (Z.ltb_spec 12 db); [reflexivity|].
  replace db with 12 by lia. reflexivity.
Qed.

Lemma gain_table_bounded g : In g gain_table_q16 -> 0 < g <= GAIN_TABLE_MAX_Q16.
Proof.
  unfold gain_table_q16, GAIN_TABLE_MAX_Q16. simpl.
  intros H. repeat (destruct H as [<- | H]; [lia|]). contradiction.
Qed.

(** Every gain that [recompute] can store is a table entry, hence at most
    the table maximum. *)
Lemma gain_lookup_in_table db : In (gain_lookup db) gain_table_q16.
Proof.
  unfold gain_lookup, GAIN_TABLE_MIN_DB, GAIN_TABLE_MAX_DB.
  set (d1 := if db <? -24 then -24 else db).
  set (d2 := if d1 >? 12 then 12 else d1).
  assert (H : -24 <= d2 <= 12).
  { subst d2. rewrite Z.gtb_ltb. subst d1.
    destruct (Z.ltb_spec db (-24)) as [H1|H1];
      [destruct (Z.ltb_spec 12 (-24)) | destruct (Z.ltb_spec 12 db)]; lia. }
  rewrite wrap32_id by (unfold_ranges; lia).
  apply nth_In. change (length gain_table_q16) with 37%nat. lia.
Qed.

(** * Further properties of the code *)

(** ** Gain lookup *)

Lemma gain_lookup_unfold db :
  gain_lookup db =
  nth (Z.to_nat (wrap32 (clamp_db db - GAIN_TABLE_MIN_DB))) gain_table_q16 0.
Proof.
  unfold gain_lookup, clamp_db, GAIN_TABLE_MIN_DB, GAIN_TABLE_MAX_DB.
  rewrite Z.gtb_ltb.
  destruct (Z.ltb_spec db (-24)) as [H1|H1].
  - rewrite Z.max_l by lia. reflexivity.
  - destruct (Z.ltb_spec 12 db) as [H2|H2].
    + rewrite Z.min_l, Z.max_r by lia. reflexivity.
    + rewrite Z.min_r, Z.max_r by lia. reflexivity.
Qed.

Lemma clamp_db_idem db : clamp_db (clamp_db db) = clamp_db db.
Proof. unfold clamp_db, GAIN_TABLE_MIN_DB, GAIN_TABLE_MAX_DB. lia. Qed.

Lemma gain_lookup_clamp_db db : gain_lookup db = gain_lookup (clamp_db db).
Proof. rewrite (gain_lookup_unfold (clamp_db db)), clamp_db_idem. apply gain_lookup_unfold. Qed.

Lemma clamp_db_range db : -24 <= clamp_db db <= 12.
Proof. unfold clamp_db, GAIN_TABLE_MIN_DB, GAIN_TABLE_MAX_DB. lia. Qed.

(** Inside the table range the lookup is the entry at [db + 24]. *)
Lemma gain_lookup_in_range db :
  -24 <= db <= 12 ->
  gain_lookup db = nth (Z.to_nat (db + 24)) gain_table_q16 0.
Proof.
  intros H. unfold gain_lookup, GAIN_TABLE_MIN_DB, GAIN_TABLE_MAX_DB.
  rewrite Z.gtb_ltb.
  destruct (Z.ltb_spec db (-24)); [lia|].
  destruct (Z.ltb_spec 12 db); [lia|].
  rewrite wrap32_id by (unfold_ranges; lia).
  replace (db - -24) with (db + 24) by lia. reflexivity.
Qed.

(** Consecutive table entries increase. *)
Lemma gain_table_step i :
  (i < 36)%nat -> nth i gain_table_q16 0 < nth (S i) gain_table_q16 0.
Proof.
  intros H.
  do 36 (destruct i as [|i]; [vm_compute; reflexivity|]). lia.
Qed.

Lemma gain_table_increasing i j :
  (i < j)%nat -> (j <= 36)%nat ->
  nth i gain_table_q16 0 < nth j gain_table_q16 0.
Proof.
  intros Hij. induction j as [|j IH]; intros Hj; [lia|].
  destruct (Nat.eq_dec i j) as [->|Hne].
  - apply gain_table_step. lia.
  - pose proof (gain_table_step j ltac:(lia)). specialize (IH ltac:(lia) ltac:(lia)). lia.
Qed.

(** X1.  Whatever level is requested or configured, the gain stored by
    [sound_set_subharmonic_level] and by [recompute] is the table entry
    of the level clamped to [-24, 12]: the index is always inside the
    table, levels below -24 give the first entry, levels above 12 the
    last one, and the stored gain lies between 4145 and 264367. *)
Theorem stored_gain_is_clamped_table_entry (db : Z) (s : state) :
  gain_q16 (sound_set_subharmonic_level db s) =
    nth (Z.to_nat (clamp_db db + 24)) gain_table_q16 0 /\
  gain_q16 (recompute s) =
    nth (Z.to_nat (clamp_db (subharmonic_level (global_settings s)) + 24))
        gain_table_q16 0 /\
  (0 <= Z.to_nat (clamp_db db + 24) < length gain_table_q16)%nat /\
  In (gain_q16 (sound_set_subharmonic_level db s)) gain_table_q16 /\
  In (gain_q16 (recompute s)) gain_table_q16 /\
  4145 <= gain_q16 (sound_set_subharmonic_level db s) <= GAIN_TABLE_MAX_Q16 /\
  4145 <= gain_q16 (recompute s) <= GAIN_TABLE_MAX_Q16.
Proof.
  assert (Hs : forall d, gain_q16 (sound_set_subharmonic_level d s) = gain_lookup d)
    by reflexivity.
  assert (Hb : forall d, 4145 <= gain_lookup d <= GAIN_TABLE_MAX_Q16).
  { intro d. rewrite gain_lookup_clamp_db.
    pose proof (clamp_db_range d) as R.
    rewrite gain_lookup_in_range by exact R.
    set (i := Z.to_nat (clamp_db d + 24)).
    assert (Hi : (i <= 36)%nat) by (subst i; lia).
    change 4145 with (nth 0 gain_table_q16 0).
    change GAIN_TABLE_MAX_Q16 with (nth 36 gain_table_q16 0).
    split.
    - destruct (Nat.eq_dec 0 i) as [<-|Hne]; [lia|].
      pose proof (gain_table_increasing 0 i ltac:(lia) Hi). lia.
    - destruct (Nat.eq_dec i 36) as [->|Hne]; [lia|].
      pose proof (gain_table_increasing i 36 ltac:(lia) ltac:(lia)). lia. }
  rewrite recompute_gain, Hs.
  pose proof (clamp_db_range db) as R.
  split; [rewrite gain_lookup_clamp_db; apply gain_lookup_in_range; exact R|].
  split; [rewrite gain_lookup_clamp_db; apply gain_lookup_in_range;
          apply clamp_db_range|].
  split; [change (length gain_table_q16) with 37%nat; lia|].
  split; [apply gain_lookup_in_table|].
  split; [apply gain_lookup_in_table|].
  split; apply Hb.
Qed.

(** X2.  The gain lookup is monotone in the level: a higher requested
    level never gives a smaller gain, and inside the table range
    [-24, 12] a higher level gives a strictly larger gain. *)
Theorem gain_lookup_monotone (db1 db2 : Z) (s : state) :
  db1 <= db2 ->
  gain_q16 (sound_set_subharmonic_level db1 s)
    <= gain_q16 (sound_set_subharmonic_level db2 s) /\
  (-24 <= db1 -> db1 < db2 -> db2 <= 12 ->
   gain_q16 (sound_set_subharmonic_level db1 s)
     < gain_q16 (sound_set_subharmonic_level db2 s)).
Proof.
  intros Hle.
  change (gain_q16 (sound_set_subharmonic_level db1 s)) with (gain_lookup db1).
  change (gain_q16 (sound_set_subharmonic_level db2 s)) with (gain_lookup db2).
  split.
  - rewrite (gain_lookup_clamp_db db1), (gain_lookup_clamp_db db2).
    pose proof (clamp_db_range db1) as R1. pose proof (clamp_db_range db2) as R2.
    rewrite !gain_lookup_in_range by assumption.
    assert (Hc : clamp_db db1 <= clamp_db db2)
      by (unfold clamp_db, GAIN_TABLE_MIN_DB, GAIN_TABLE_MAX_DB; lia).
    destruct (Z.eq_dec (clamp_db db1) (clamp_db db2)) as [->|Hne]; [lia|].
    pose proof (gain_table_increasing (Z.to_nat (clamp_db db1 + 24))
                  (Z.to_nat (clamp_db db2 + 24)) ltac:(lia) ltac:(lia)). lia.
  - intros H1 H2 H3. rewrite !gain_lookup_in_range by lia.
    apply gain_table_increasing; lia.
Qed.

Lemma gain_lookup_monotone_witness :
  gain_q16 (sound_set_subharmonic_level (-6) (state_with 100 44100))
  < gain_q16 (sound_set_subharmonic_level 3 (state_with 100 44100)).
Proof.
  destruct (gain_lookup_monotone (-6) 3 (state_with 100 44100)) as [_ H].
  - lia.
  - apply H; lia.
Defined.

(** ** The low-pass step as an averaging filter *)

Lemma lowpass_q16_value alpha x prev :
  0 <= alpha <= 65536 -> in_int32 x -> in_int32 prev ->
  lowpass_q16 alpha x prev = lowpass_acc alpha x prev / 65536.
Proof.
  intros Ha Hx Hp.
  destruct (lowpass_q16_exact alpha x prev Ha Hx Hp) as [_ [_ [_ [E _]]]].
  rewrite E. apply shiftr16.
Qed.

(** X3.  With a coefficient in [0, 2^16] and 32-bit operands, one
    low-pass step never overshoots: its output lies between the previous
    output and the input.  A constant signal is a fixed point, the
    coefficient 0 keeps the previous output, the coefficient 2^16 passes
    the input, and the step is monotone in the input and in the previous
    output. *)
Theorem lowpass_step_averages (alpha x prev x' prev' : Z) :
  0 <= alpha <= 65536 ->
  in_int32 x -> in_int32 prev -> in_int32 x' -> in_int32 prev' ->
  Z.min x prev <= lowpass_q16 alpha x prev <= Z.max x prev /\
  lowpass_q16 alpha x x = x /\
  lowpass_q16 0 x prev = prev /\
  lowpass_q16 65536 x prev = x /\
  (x <= x' -> prev <= prev' ->
   lowpass_q16 alpha x prev <= lowpass_q16 alpha x' prev').
Proof.
  intros Ha Hx Hp Hx' Hp'.
  split.
  { destruct (lowpass_q16_exact alpha x prev Ha Hx Hp) as [_ [_ [_ [_ B]]]].
    exact B. }
  split.
  { rewrite lowpass_q16_value by assumption. unfold lowpass_acc.
    replace (alpha * x + (65536 - alpha) * x) with (x * 65536) by lia.
    apply Z.div_mul. lia. }
  split.
  { rewrite lowpass_q16_value by (assumption || lia). unfold lowpass_acc.
    replace (0 * x + (65536 - 0) * prev) with (prev * 65536) by lia.
    apply Z.div_mul. lia. }
  split.
  { rewrite lowpass_q16_value by (assumption || lia). unfold lowpass_acc.
    replace (65536 * x + (65536 - 65536) * prev) with (x * 65536) by lia.
    apply Z.div_mul. lia. }
  intros Hxx Hpp. rewrite !lowpass_q16_value by assumption.
  apply Z.div_le_mono; [lia|]. unfold lowpass_acc. nia.
Qed.

Lemma lowpass_step_averages_witness :
  Z.min 1000 (-500) <= lowpass_q16 920 1000 (-500) <= Z.max 1000 (-500) /\
  lowpass_q16 920 1000 1000 = 1000 /\
  lowpass_q16 920 1000 (-500) <= lowpass_q16 920 2000 0.
Proof.
  destruct (lowpass_step_averages 920 1000 (-500) 2000 0)
    as [H1 [H2 [_ [_ H5]]]].
  - lia.
  - unfold_ranges; lia.
  - unfold_ranges; lia.
  - unfold_ranges; lia.
  - unfold_ranges; lia.
  - split; [exact H1|]. split; [exact H2|]. apply H5; lia.
Defined.

(** ** Bounded input, bounded state *)

Lemma channel_body_within lo hi s c x :
  0 <= alpha_q16 s <= 65536 ->
  INT32_MIN <= lo -> hi <= INT32_MAX ->
  cells_within lo hi s c -> lo <= x <= hi ->
  cells_within lo hi (fst (channel_body s c x)) c /\
  lo <= v_crossover_out (snd (channel_body s c x)) <= hi /\
  lo <= v_subharmonic_out (snd (channel_body s c x)) <= hi /\
  lo <= v_antialias_out (snd (channel_body s c x)) <= hi.
Proof.
  intros Ha Hlo Hhi [Hpc [Hh Hpa]] Hx.
  assert (Avg : forall u p, lo <= u <= hi -> lo <= p <= hi ->
                            lo <= lowpass_q16 (alpha_q16 s) u p <= hi).
  { intros u p Hu Hp'.
    assert (Iu : in_int32 u) by (unfold_ranges; lia).
    assert (Ip : in_int32 p) by (unfold_ranges; lia).
    destruct (lowpass_q16_exact (alpha_q16 s) u p Ha Iu Ip)
      as [_ [_ [_ [_ B]]]]. lia. }
  unfold cells_within, channel_body. cbn -[lowpass_q16 mixer].
  rewrite !get2_set2_same.
  set (co := lowpass_q16 (alpha_q16 s) x (get2 (prev_crossover_out s) c)).
  assert (Hco : lo <= co <= hi) by (apply Avg; assumption).
  assert (Hsub : lo <= get2 (if get2 (toggle_state s) c =? 0
                             then set2 (subharmonic_hold_q16 s) c co
                             else subharmonic_hold_q16 s) c <= hi).
  { destruct (get2 (toggle_state s) c =? 0);
      [rewrite get2_set2_same|]; assumption. }
  repeat split; try apply Hco; try apply Hsub; apply Avg; assumption.
Qed.

Lemma run_channel_within lo hi c xs : forall s,
  0 <= alpha_q16 s <= 65536 ->
  INT32_MIN <= lo -> hi <= INT32_MAX ->
  cells_within lo hi s c ->
  Forall (fun x => lo <= x <= hi) xs ->
  cells_within lo hi (fst (run_channel s c xs)) c.
Proof.
  induction xs as [|x xs IH]; intros s Ha Hlo Hhi Hc Hxs; [exact Hc|].
  rewrite run_channel_cons. cbn [fst].
  inversion Hxs as [|? ? Hx Hxs']; subst.
  apply IH; trivial.
  apply channel_body_within; assumption.
Qed.

Lemma cells_within_agree lo hi c s t :
  agree_on c s t -> cells_within lo hi t c -> cells_within lo hi s c.
Proof.
  unfold agree_on, chan_cells, cells_within. intros [Hc _] H.
  injection Hc as -> -> -> _. exact H.
Qed.

(** X4.  Bounded input gives bounded state: when the coefficient is in
    [0, 2^16] and the processed samples of a channel and its three signal
    memories all lie in a range [lo, hi] of 32-bit values, the memories
    of that channel still lie in [lo, hi] after [process]. *)
Theorem process_keeps_memories_in_input_range
        (lo hi c : Z) (s : state) (b : dsp_buffer) :
  subharmonic_enable (global_settings s) = true ->
  (c = 0 \/ c = 1) -> c < num_channels b ->
  (Z.to_nat (remcount b) <= length (get2 (p32 b) c))%nat ->
  0 <= alpha_q16 s <= 65536 ->
  INT32_MIN <= lo -> hi <= INT32_MAX ->
  cells_within lo hi s c ->
  Forall (fun x => lo <= x <= hi)
         (firstn (Z.to_nat (remcount b)) (get2 (p32 b) c)) ->
  cells_within lo hi (fst (process s b)) c.
Proof.
  intros Hen Hc Hn Hlen Ha Hlo Hhi Hcells Hxs.
  destruct (process_channel_run c s b Hen Hc Hn Hlen) as [A _].
  eapply cells_within_agree; [exact A|].
  apply run_channel_within; assumption.
Qed.

Lemma process_keeps_memories_in_input_range_witness :
  cells_within (-1000) 1000
    (fst (process (recompute (state_with 100 44100))
                  (mkBuffer 4 ([1000; -1000; 1000; -1000], [5; 5; 5; 5]) 2)))
    0.
Proof.
  apply process_keeps_memories_in_input_range.
  - reflexivity.
  - left; reflexivity.
  - simpl; lia.
  - simpl; lia.
  - vm_compute; split; congruence.
  - unfold INT32_MIN; lia.
  - unfold INT32_MAX; lia.
  - vm_compute. repeat split; congruence.
  - simpl. repeat constructor; lia.
Defined.

(** ** Silent memories *)

Lemma lowpass_q16_zero_input alpha : lowpass_q16 alpha 0 0 = 0.
Proof. unfold lowpass_q16. rewrite !Z.mul_0_r. reflexivity. Qed.

Lemma lowpass_q16_zero_alpha x : lowpass_q16 0 x 0 = 0.
Proof. unfold lowpass_q16. rewrite Z.mul_0_l, Z.mul_0_r. reflexivity. Qed.

Lemma in_int32_in_int64 x : in_int32 x -> in_int64 x.
Proof. unfold_ranges. lia. Qed.

(** With a silent subharmonic branch the mixer passes the original
    sample, halved when the pregain is on. *)
Lemma mixer_zero_subharmonic x gain pg :
  in_int32 x -> mixer x 0 gain pg = if pg then Z.shiftr x 1 else x.
Proof.
  intros Hx. unfold mixer. rewrite Z.mul_0_r.
  change (Z.shiftr (wrap64 0) 16) with 0. rewrite !Z.add_0_r.
  assert (Hh : in_int32 (Z.shiftr x 1)).
  { rewrite shiftr1. unfold_ranges. Z.div_mod_to_equations. lia. }
  destruct pg.
  - rewrite (wrap64_id _ (in_int32_in_int64 _ Hh)).
    rewrite Z.gtb_ltb.
    destruct (Z.ltb_spec INT32_MAX (Z.shiftr x 1)); [unfold_ranges; lia|].
    destruct (Z.ltb_spec (Z.shiftr x 1) INT32_MIN); [unfold_ranges; lia|].
    apply wrap32_id; exact Hh.
  - rewrite (wrap64_id _ (in_int32_in_int64 _ Hx)).
    rewrite Z.gtb_ltb.
    destruct (Z.ltb_spec INT32_MAX x); [unfold_ranges; lia|].
    destruct (Z.ltb_spec x INT32_MIN); [unfold_ranges; lia|].
    apply wrap32_id; exact Hx.
Qed.

(** A channel whose memories are zero and whose crossover filter answers
    zero to every input keeps zero memories, and its outputs are the
    mixer's results for a silent subharmonic branch. *)
Lemma run_channel_silent c xs : forall s,
  cells_zero s c ->
  Forall (fun x => lowpass_q16 (alpha_q16 s) x 0 = 0) xs ->
  cells_zero (fst (run_channel s c xs)) c /\
  map v_mixer_out (snd (run_channel s c xs)) =
  map (fun x => mixer x 0 (gain_q16 s) (pregain s)) xs.
Proof.
  induction xs as [|x xs IH]; intros s Hz Hxs; [split; [exact Hz|reflexivity]|].
  inversion Hxs as [|? ? Hx Hxs']; subst.
  destruct Hz as [Z1 [Z2 Z3]].
  assert (Hco : v_crossover_out (snd (channel_body s c x)) = 0).
  { unfold channel_body. cbn -[lowpass_q16 mixer]. rewrite Z1. exact Hx. }
  assert (Hsub : v_subharmonic_out (snd (channel_body s c x)) = 0).
  { rewrite channel_body_subharmonic_out, channel_body_hold, Hco, Z2.
    destruct (get2 (toggle_state s) c =? 0); reflexivity. }
  assert (Hao : v_antialias_out (snd (channel_body s c x)) = 0).
  { change (v_antialias_out (snd (channel_body s c x)))
      with (lowpass_q16 (alpha_q16 s)
                        (v_subharmonic_out (snd (channel_body s c x)))
                        (get2 (prev_antialias_out_q16 s) c)).
    rewrite Hsub, Z3. apply lowpass_q16_zero_input. }
  assert (Hz' : cells_zero (fst (channel_body s c x)) c).
  { split; [|split].
    - change (get2 (prev_crossover_out (fst (channel_body s c x))) c)
        with (get2 (set2 (prev_crossover_out s) c
                         (v_crossover_out (snd (channel_body s c x)))) c).
      rewrite get2_set2_same. exact Hco.
    - rewrite <- channel_body_subharmonic_out. exact Hsub.
    - change (get2 (prev_antialias_out_q16 (fst (channel_body s c x))) c)
        with (get2 (set2 (prev_antialias_out_q16 s) c
                         (v_antialias_out (snd (channel_body s c x)))) c).
      rewrite get2_set2_same. exact Hao. }
  destruct (IH (fst (channel_body s c x)) Hz' Hxs') as [I1 I2].
  rewrite run_channel_cons. cbn [fst snd map]. split; [exact I1|].
  rewrite I2, channel_body_mixer, Hao. reflexivity.
Qed.

Lemma cells_zero_agree c s t :
  agree_on c s t -> cells_zero t c -> cells_zero s c.
Proof.
  unfold agree_on, chan_cells, cells_zero. intros [Hc _] H.
  injection Hc as -> -> -> _. exact H.
Qed.

Lemma map_id_on {A} (f : A -> A) (l : list A) :
  Forall (fun x => f x = x) l -> map f l = l.
Proof.
  induction 1 as [|x l Hx _ IH]; [reflexivity|]. simpl. rewrite Hx, IH. reflexivity.
Qed.

(** X5.  Silence in, silence out: whatever the coefficient, the gain and
    the pregain are, a channel with zero memories that is fed zero
    samples gets zero samples back (the buffer is unchanged) and keeps
    zero memories. *)
Theorem process_silence_stays_silent (c : Z) (s : state) (b : dsp_buffer) :
  subharmonic_enable (global_settings s) = true ->
  (c = 0 \/ c = 1) -> c < num_channels b ->
  (Z.to_nat (remcount b) <= length (get2 (p32 b) c))%nat ->
  cells_zero s c ->
  Forall (fun x => x = 0) (firstn (Z.to_nat (remcount b)) (get2 (p32 b) c)) ->
  get2 (p32 (snd (process s b))) c = get2 (p32 b) c /\
  cells_zero (fst (process s b)) c.
Proof.
  intros Hen Hc Hn Hlen Hz Hxs.
  destruct (process_channel_run c s b Hen Hc Hn Hlen) as [A O].
  destruct (run_channel_silent c
              (firstn (Z.to_nat (remcount b)) (get2 (p32 b) c)) s Hz)
    as [R1 R2].
  { eapply Forall_impl; [|exact Hxs]. intros x ->. apply lowpass_q16_zero_input. }
  split; [|eapply cells_zero_agree; eassumption].
  rewrite O, R2, map_id_on, firstn_skipn; [reflexivity|].
  eapply Forall_impl; [|exact Hxs]. intros x ->.
  rewrite mixer_zero_subharmonic by (unfold_ranges; lia).
  destruct (pregain s); reflexivity.
Qed.

Lemma process_silence_stays_silent_witness :
  get2 (p32 (snd (process (recompute (state_with 100 44100))
                          (mkBuffer 3 ([0; 0; 0; 7], [1; 2; 3; 4]) 2)))) 0
  = [0; 0; 0; 7].
Proof.
  destruct (process_silence_stays_silent 0 (recompute (state_with 100 44100))
              (mkBuffer 3 ([0; 0; 0; 7], [1; 2; 3; 4]) 2)) as [H _].
  - reflexivity.
  - left; reflexivity.
  - simpl; lia.
  - simpl; lia.
  - vm_compute. repeat split.
  - simpl. repeat constructor.
  - exact H.
Defined.

Lemma alpha_of_zero_cutoff fs : alpha_of 0 fs = 0.
Proof.
  unfold alpha_of, alpha_w. rewrite Z.mul_0_l.
  change (wrap64 (Z.shiftl (wrap64 0) 16)) with 0.
  rewrite Z.quot_0_l; [reflexivity|].
  pose proof (alpha_den_positive 0 fs). lia.
Qed.

(** X6.  A cutoff of 0 makes the stage transparent: after
    initialisation with the configured cutoff 0, at any output frequency,
    the coefficient is 0 and [process] returns every 32-bit sample of a
    processed channel unchanged when the pregain is off, and shifted
    right by one bit when it is on; the memories stay zero. *)
Theorem zero_cutoff_is_transparent
        (c out_freq : Z) (this : dsp_proc_entry) (s : state) (b : dsp_buffer) :
  subharmonic_enable (global_settings s) = true ->
  subharmonic_crossover (global_settings s) = 0 ->
  (c = 0 \/ c = 1) -> c < num_channels b ->
  (Z.to_nat (remcount b) <= length (get2 (p32 b) c))%nat ->
  Forall in_int32 (firstn (Z.to_nat (remcount b)) (get2 (p32 b) c)) ->
  let s1 := fst (fst (configure this out_freq DSP_PROC_INIT s)) in
  alpha_q16 s1 = 0 /\
  get2 (p32 (snd (process s1 b))) c =
    map (fun x => if subharmonic_pregain (global_settings s)
                  then Z.shiftr x 1 else x)
        (firstn (Z.to_nat (remcount b)) (get2 (p32 b) c))
    ++ skipn (Z.to_nat (remcount b)) (get2 (p32 b) c) /\
  cells_zero (fst (process s1 b)) c.
Proof.
  intros Hen Hcut Hc Hn Hlen Hxs s1.
  assert (Ha : alpha_q16 s1 = 0).
  { subst s1. cbn [configure fst]. rewrite recompute_alpha. cbn.
    rewrite Hcut. apply alpha_of_zero_cutoff. }
  assert (Hen1 : subharmonic_enable (global_settings s1) = true) by exact Hen.
  assert (Hz : cells_zero s1 c).
  { subst s1. unfold cells_zero, get2. cbn. destruct (c =? 0); repeat split. }
  destruct (process_channel_run c s1 b Hen1 Hc Hn Hlen) as [A O].
  destruct (run_channel_silent c
              (firstn (Z.to_nat (remcount b)) (get2 (p32 b) c)) s1 Hz)
    as [R1 R2].
  { rewrite Ha. apply Forall_forall. intros x _. apply lowpass_q16_zero_alpha. }
  split; [exact Ha|]. split; [|eapply cells_zero_agree; eassumption].
  rewrite O, R2. f_equal.
  apply map_ext_in. intros x Hx.
  rewrite Forall_forall in Hxs.
  rewrite mixer_zero_subharmonic by (apply Hxs; exact Hx). reflexivity.
Qed.

Lemma zero_cutoff_is_transparent_witness :
  get2 (p32 (snd (process
                    (fst (fst (configure (mkEntry false) 48000 DSP_PROC_INIT
                                         (state_with 0 44100))))
                    (mkBuffer 3 ([100; -200; 300], [1; 2; 3]) 2)))) 1
  = [1; 2; 3].
Proof.
  destruct (zero_cutoff_is_transparent 1 48000 (mkEntry false)
              (state_with 0 44100)
              (mkBuffer 3 ([100; -200; 300], [1; 2; 3]) 2)) as [_ [H _]].
  - reflexivity.
  - reflexivity.
  - right; reflexivity.
  - simpl; lia.
  - simpl; lia.
  - simpl. repeat constructor; unfold_ranges; lia.
  - exact H.
Defined.

(** ** The buffer after [process] *)

(** A property of the state and buffer that one outer iteration keeps is
    kept by the whole loop. *)
Lemma process_loop_invariant (P : state * dsp_buffer -> Prop) :
  (forall i sb, P sb -> P (process_sample i sb)) ->
  forall n i sb, P sb -> P (process_loop n i sb).
Proof.
  intros Hstep. induction n as [|n IH]; intros i sb H; [exact H|].
  cbn [process_loop]. apply IH. apply Hstep. exact H.
Qed.

Lemma run_channel_nth c xs : forall s n d,
  (n < length xs)%nat ->
  nth n (snd (run_channel s c xs)) d = stages_at s c xs n.
Proof.
  induction xs as [|x xs IH]; intros s n d Hn; simpl in Hn; [lia|].
  rewrite run_channel_cons. cbn [snd].
  destruct n as [|n]; [reflexivity|].
  rewrite stages_at_cons. cbn [nth]. apply IH. lia.
Qed.

Lemma run_channel_length c xs : forall s,
  length (snd (run_channel s c xs)) = length xs.
Proof.
  induction xs as [|x xs IH]; intros s; [reflexivity|].
  rewrite run_channel_cons. cbn [snd length]. rewrite IH. reflexivity.
Qed.

(** X7.  [process] treats each processed channel as an independent
    stream: sample [n] of the channel, for [n] below [remcount], is
    replaced by the mixer output of the [n]-th step of a run of the loop
    body over that channel's samples alone; samples from [remcount] on
    are left as they were; the channel's memories after the call are
    those of that run. *)
Theorem process_is_per_channel_run (c : Z) (s : state) (b : dsp_buffer) (n : nat) :
  subharmonic_enable (global_settings s) = true ->
  (c = 0 \/ c = 1) -> c < num_channels b ->
  (Z.to_nat (remcount b) <= length (get2 (p32 b) c))%nat ->
  let xs := firstn (Z.to_nat (remcount b)) (get2 (p32 b) c) in
  let out := get2 (p32 (snd (process s b))) c in
  length out = length (get2 (p32 b) c) /\
  ((n < Z.to_nat (remcount b))%nat ->
   nth n out 0 = v_mixer_out (stages_at s c xs n)) /\
  ((Z.to_nat (remcount b) <= n)%nat ->
   nth n out 0 = nth n (get2 (p32 b) c) 0) /\
  chan_cells (fst (process s b)) c = chan_cells (fst (run_channel s c xs)) c.
Proof.
  intros Hen Hc Hn Hlen xs out.
  destruct (process_channel_run c s b Hen Hc Hn Hlen) as [A O].
  fold xs in A, O. fold out in O.
  assert (Lxs : length xs = Z.to_nat (remcount b))
    by (subst xs; rewrite length_firstn; lia).
  assert (Lm : length (map v_mixer_out (snd (run_channel s c xs)))
               = Z.to_nat (remcount b))
    by (rewrite length_map, run_channel_length; exact Lxs).
  split; [|split; [|split]].
  - rewrite O, length_app, Lm, length_skipn. lia.
  - intros Hlt. rewrite O, app_nth1 by lia.
    rewrite (nth_indep _ 0 (v_mixer_out (mkStages 0 0 0 0))) by lia.
    rewrite map_nth. f_equal. apply run_channel_nth. lia.
  - intros Hge. rewrite O, app_nth2 by lia. rewrite Lm.
    rewrite nth_skipn. f_equal. lia.
  - destruct A as [A _]. exact A.
Qed.

Lemma process_is_per_channel_run_witness :
  nth 1 (get2 (p32 (snd (process (recompute (state_with 100 44100))
                                 (mkBuffer 2 ([1000; -1000; 7], [5; 5; 5]) 2)))) 0) 0
  = v_mixer_out (stages_at (recompute (state_with 100 44100)) 0 [1000; -1000] 1)
  /\
  nth 2 (get2 (p32 (snd (process (recompute (state_with 100 44100))
                                 (mkBuffer 2 ([1000; -1000; 7], [5; 5; 5]) 2)))) 0) 0
  = 7.
Proof.
  split.
  - destruct (process_is_per_channel_run 0 (recompute (state_with 100 44100))
                (mkBuffer 2 ([1000; -1000; 7], [5; 5; 5]) 2) 1)
      as [_ [H _]].
    + reflexivity.
    + left; reflexivity.
    + simpl; lia.
    + simpl; lia.
    + apply H. simpl; lia.
  - destruct (process_is_per_channel_run 0 (recompute (state_with 100 44100))
                (mkBuffer 2 ([1000; -1000; 7], [5; 5; 5]) 2) 2)
      as [_ [_ [H _]]].
    + reflexivity.
    + left; reflexivity.
    + simpl; lia.
    + simpl; lia.
    + apply H. simpl; lia.
Defined.

Lemma process_sample_header i s b :
  let r := process_sample i (s, b) in
  remcount (snd r) = remcount b /\
  num_channels (snd r) = num_channels b /\
  (forall c, length (get2 (p32 (snd r)) c) = length (get2 (p32 b) c)).
Proof.
  unfold process_sample. cbn [snd].
  destruct (0 <? num_channels b), (1 <? num_channels b);
    rewrite ?process_channel_eq; cbn [fst snd buf_write remcount num_channels p32];
    (split; [reflexivity|]; split; [reflexivity|]); intros c;
    unfold get2, set2; destruct (c =? 0); cbn [fst snd Z.eqb];
    rewrite ?length_store; reflexivity.
Qed.

(** X8.  [process] only touches sample values and the channel memories:
    the coefficient, the gain, the pregain flag, the cached sample rate
    and the settings are the same afterwards, and so are the buffer's
    sample count, its channel count and the length of each channel. *)
Theorem process_changes_only_samples_and_memories (s : state) (b : dsp_buffer) :
  alpha_q16 (fst (process s b)) = alpha_q16 s /\
  gain_q16 (fst (process s b)) = gain_q16 s /\
  pregain (fst (process s b)) = pregain s /\
  samplerate (fst (process s b)) = samplerate s /\
  global_settings (fst (process s b)) = global_settings s /\
  remcount (snd (process s b)) = remcount b /\
  num_channels (snd (process s b)) = num_channels b /\
  (forall c, length (get2 (p32 (snd (process s b))) c)
             = length (get2 (p32 b) c)).
Proof.
  pose proof (flush_after_process s b) as F.
  unfold flush_state in F. injection F as F1 F2 F3 F4 F5.
  repeat (split; [assumption|]).
  unfold process.
  destruct (negb (subharmonic_enable (global_settings s)));
    [repeat split; reflexivity|].
  apply (process_loop_invariant
           (fun sb => remcount (snd sb) = remcount b /\
                      num_channels (snd sb) = num_channels b /\
                      (forall c, length (get2 (p32 (snd sb)) c)
                                 = length (get2 (p32 b) c))));
    [|repeat split; reflexivity].
  intros i [s' b'] [H1 [H2 H3]]. cbn [snd] in *.
  destruct (process_sample_header i s' b') as [G1 [G2 G3]].
  split; [congruence|]. split; [congruence|].
  intros c. rewrite G3. apply H3.
Qed.

(** X9.  A channel that the buffer does not have is not touched: when
    [num_channels] is at most [c] (channel 1 of a mono buffer, or either
    channel when the count is not positive), [process] changes neither
    that channel's samples nor its memories. *)
Theorem process_skips_absent_channel (c : Z) (s : state) (b : dsp_buffer) :
  (c = 0 \/ c = 1) -> num_channels b <= c ->
  get2 (p32 (snd (process s b))) c = get2 (p32 b) c /\
  chan_cells (fst (process s b)) c = chan_cells s c.
Proof.
  intros Hc Hn.
  cut (agree_on c (fst (process s b)) s /\
       get2 (p32 (snd (process s b))) c = get2 (p32 b) c /\
       num_channels (snd (process s b)) = num_channels b).
  { intros [[A _] [B _]]. split; assumption. }
  unfold process.
  destruct (negb (subharmonic_enable (global_settings s)));
    [split; [apply agree_on_refl | split; reflexivity]|].
  apply (process_loop_invariant
           (fun sb => agree_on c (fst sb) s /\
                      get2 (p32 (snd sb)) c = get2 (p32 b) c /\
                      num_channels (snd sb) = num_channels b));
    [|split; [apply agree_on_refl | split; reflexivity]].
  intros i [s' b'] [H1 [H2 H3]]. cbn [fst snd] in *.
  unfold process_sample. cbn [snd]. rewrite H3.
  assert (E1 : (1 <? num_channels b) = false) by (apply Z.ltb_ge; lia).
  rewrite E1.
  destruct (Z.ltb_spec 0 (num_channels b)) as [Hpos|Hneg];
    [|split; [exact H1 | split; assumption]].
  assert (c = 1) by lia. subst c.
  rewrite process_channel_eq. cbn [fst snd].
  split; [|split; [|exact H3]].
  - eapply agree_on_trans; [|exact H1]. apply channel_body_other. discriminate.
  - unfold buf_write. cbn [p32]. rewrite get2_set2_other by discriminate.
    exact H2.
Qed.

Lemma process_skips_absent_channel_witness :
  get2 (p32 (snd (process (recompute (state_with 100 44100))
                          (mkBuffer 2 ([1000; -1000], [5; 6]) 1)))) 1
  = [5; 6].
Proof.
  destruct (process_skips_absent_channel 1 (recompute (state_with 100 44100))
              (mkBuffer 2 ([1000; -1000], [5; 6]) 1)) as [H _].
  - right; reflexivity.
  - simpl; lia.
  - exact H.
Defined.

Lemma process_sample_no_channels i sb :
  num_channels (snd sb) <= 0 -> process_sample i sb = sb.
Proof.
  intros H. unfold process_sample.
  destruct (Z.ltb_spec 0 (num_channels (snd sb))); [lia|].
  destruct (Z.ltb_spec 1 (num_channels (snd sb))); [lia|]. reflexivity.
Qed.

(** X10.  With nothing to do, nothing is done: when the sample count or
    the channel count of the buffer is zero or negative, [process]
    returns the state and the buffer as they were. *)
Theorem process_empty_buffer_is_noop (s : state) (b : dsp_buffer) :
  remcount b <= 0 \/ num_channels b <= 0 ->
  process s b = (s, b).
Proof.
  intros H. unfold process.
  destruct (negb (subharmonic_enable (global_settings s))); [reflexivity|].
  destruct H as [H|H].
  - replace (Z.to_nat (remcount b)) with 0%nat by lia. reflexivity.
  - apply (process_loop_invariant (fun sb => sb = (s, b))); [|reflexivity].
    intros i sb ->. apply process_sample_no_channels. exact H.
Qed.

Lemma process_empty_buffer_is_noop_witness :
  process (recompute (state_with 100 44100)) (mkBuffer 0 ([5; 6], [7; 8]) 2)
  = (recompute (state_with 100 44100), mkBuffer 0 ([5; 6], [7; 8]) 2)
  /\
  process (recompute (state_with 100 44100)) (mkBuffer 2 ([5; 6], [7; 8]) 0)
  = (recompute (state_with 100 44100), mkBuffer 2 ([5; 6], [7; 8]) 0).
Proof.
  split; apply process_empty_buffer_is_noop.
  - left; simpl; lia.
  - right; simpl; lia.
Defined.

(** ** Streaming *)

Lemma run_channel_app c xs : forall s ys,
  run_channel s c (xs ++ ys) =
  (fst (run_channel (fst (run_channel s c xs)) c ys),
   snd (run_channel s c xs)
   ++ snd (run_channel (fst (run_channel s c xs)) c ys)).
Proof.
  induction xs as [|x xs IH]; intros s ys.
  - cbn [app run_channel fst snd]. destruct (run_channel s c ys); reflexivity.
  - cbn [app]. rewrite !run_channel_cons, IH. reflexivity.
Qed.

Lemma get2_app_pair {A} (l1 l2 r1 r2 : list A) c :
  get2 (l1 ++ l2, r1 ++ r2) c = get2 (l1, r1) c ++ get2 (l2, r2) c.
Proof. unfold get2. destruct (c =? 0); reflexivity. Qed.

(** X11.  The result does not depend on how the stream is cut into
    buffers: processing a block and then the following block leaves, in
    every processed channel, the same samples and the same memories as
    processing the two blocks as one buffer. *)
Theorem process_block_split
        (c nch : Z) (s : state) (l1 r1 l2 r2 : list Z) :
  subharmonic_enable (global_settings s) = true ->
  (c = 0 \/ c = 1) -> c < nch ->
  length r1 = length l1 -> length r2 = length l2 ->
  let b1 := mkBuffer (Z.of_nat (length l1)) (l1, r1) nch in
  let b2 := mkBuffer (Z.of_nat (length l2)) (l2, r2) nch in
  let b12 := mkBuffer (Z.of_nat (length l1 + length l2))
                      (l1 ++ l2, r1 ++ r2) nch in
  let s1 := fst (process s b1) in
  get2 (p32 (snd (process s b12))) c =
    get2 (p32 (snd (process s b1))) c ++ get2 (p32 (snd (process s1 b2))) c /\
  chan_cells (fst (process s b12)) c = chan_cells (fst (process s1 b2)) c.
Proof.
  intros Hen Hc Hn Hr1 Hr2 b1 b2 b12 s1.
  assert (L1 : length (get2 (l1, r1) c) = length l1)
    by (unfold get2; destruct (c =? 0); cbn [fst snd]; congruence).
  assert (L2 : length (get2 (l2, r2) c) = length l2)
    by (unfold get2; destruct (c =? 0); cbn [fst snd]; congruence).
  assert (Hen1 : subharmonic_enable (global_settings s1) = true).
  { subst s1.
    destruct (process_changes_only_samples_and_memories s b1)
      as [_ [_ [_ [_ [G _]]]]]. rewrite G. exact Hen. }
  assert (E12 : firstn (Z.to_nat (remcount b12)) (get2 (p32 b12) c)
                = get2 (l1, r1) c ++ get2 (l2, r2) c
                /\ skipn (Z.to_nat (remcount b12)) (get2 (p32 b12) c) = []).
  { cbn [b12 remcount p32]. rewrite get2_app_pair, Nat2Z.id.
    rewrite <- L1, <- L2, <- length_app. split; [apply firstn_all | apply skipn_all]. }
  assert (E1 : firstn (Z.to_nat (remcount b1)) (get2 (p32 b1) c)
               = get2 (l1, r1) c
               /\ skipn (Z.to_nat (remcount b1)) (get2 (p32 b1) c) = []).
  { cbn [b1 remcount p32]. rewrite Nat2Z.id, <- L1.
    split; [apply firstn_all | apply skipn_all]. }
  assert (E2 : firstn (Z.to_nat (remcount b2)) (get2 (p32 b2) c)
               = get2 (l2, r2) c
               /\ skipn (Z.to_nat (remcount b2)) (get2 (p32 b2) c) = []).
  { cbn [b2 remcount p32]. rewrite Nat2Z.id, <- L2.
    split; [apply firstn_all | apply skipn_all]. }
  destruct E12 as [F12 S12], E1 as [F1 S1], E2 as [F2 S2].
  destruct (process_channel_run c s b12 Hen Hc Hn) as [A12 O12].
  { cbn [b12 remcount p32]. rewrite get2_app_pair, length_app, Nat2Z.id. lia. }
  destruct (process_channel_run c s b1 Hen Hc Hn) as [A1 O1].
  { cbn [b1 remcount p32]. rewrite Nat2Z.id. lia. }
  destruct (process_channel_run c s1 b2 Hen1 Hc Hn) as [A2 O2].
  { cbn [b2 remcount p32]. rewrite Nat2Z.id. lia. }
  rewrite F12 in A12, O12. rewrite S12 in O12.
  rewrite F1 in A1, O1. rewrite S1 in O1.
  rewrite F2 in A2, O2. rewrite S2 in O2.
  rewrite app_nil_r in O12, O1, O2.
  fold s1 in A1.
  rewrite run_channel_app in A12, O12. cbn [fst snd] in A12, O12.
  destruct (run_channel_agree c (get2 (l2, r2) c) _ _ A1) as [B1 B2].
  rewrite map_app in O12.
  split.
  - rewrite O12, O1, O2, B2. reflexivity.
  - destruct A12 as [A12 _]. destruct A2 as [A2 _]. destruct B1 as [B1 _].
    congruence.
Qed.

Lemma process_block_split_witness :
  get2 (p32 (snd (process (recompute (state_with 100 44100))
                          (mkBuffer 3 ([1000; -1000; 500], [1; 2; 3]) 2)))) 0
  = get2 (p32 (snd (process (recompute (state_with 100 44100))
                            (mkBuffer 1 ([1000], [1]) 2)))) 0
    ++ get2 (p32 (snd (process
                         (fst (process (recompute (state_with 100 44100))
                                       (mkBuffer 1 ([1000], [1]) 2)))
                         (mkBuffer 2 ([-1000; 500], [2; 3]) 2)))) 0.
Proof.
  destruct (process_block_split 0 2 (recompute (state_with 100 44100))
              [1000] [1] [-1000; 500] [2; 3]) as [H _].
  - reflexivity.
  - left; reflexivity.
  - lia.
  - reflexivity.
  - reflexivity.
  - exact H.
Defined.

(** ** Identical channels *)

Lemma channel_body_mirror c c' s t x :
  mirror c c' s t ->
  mirror c c' (fst (channel_body s c x)) (fst (channel_body t c' x)) /\
  snd (channel_body s c x) = snd (channel_body t c' x).
Proof.
  unfold mirror, chan_cells. intros [Hc [Ha [Hg Hp]]].
  injection Hc as H1 H2 H3 H4.
  unfold channel_body. cbn -[lowpass_q16 mixer].
  rewrite <- Ha, <- Hg, <- Hp, <- H1, <- H3, <- H4.
  destruct (get2 (toggle_state s) c =? 0);
    rewrite ?get2_set2_same, <- ?H2; repeat split; reflexivity.
Qed.

Lemma run_channel_mirror c c' xs : forall s t,
  mirror c c' s t ->
  mirror c c' (fst (run_channel s c xs)) (fst (run_channel t c' xs)) /\
  snd (run_channel s c xs) = snd (run_channel t c' xs).
Proof.
  induction xs as [|x xs IH]; intros s t H; [split; [exact H | reflexivity]|].
  destruct (channel_body_mirror c c' s t x H) as [H1 H2].
  destruct (IH _ _ H1) as [H3 H4].
  rewrite !run_channel_cons. cbn [fst snd]. split; [exact H3|].
  rewrite H2, H4. reflexivity.
Qed.

Lemma firstn_app_exact {A} (l r : list A) n :
  length l = n -> firstn n (l ++ r) = l.
Proof.
  intros <-. rewrite firstn_app, Nat.sub_diag, firstn_all. cbn [firstn].
  apply app_nil_r.
Qed.

(** X12.  Both channels are treated alike: when the two channels of a
    stereo buffer carry the same samples and their memories and toggles
    are equal before the call, [process] leaves the same samples in both
    channels and equal memories and toggles. *)
Theorem process_identical_channels_stay_identical (s : state) (b : dsp_buffer) :
  subharmonic_enable (global_settings s) = true ->
  1 < num_channels b ->
  (Z.to_nat (remcount b) <= length (get2 (p32 b) 0))%nat ->
  (Z.to_nat (remcount b) <= length (get2 (p32 b) 1))%nat ->
  chan_cells s 0 = chan_cells s 1 ->
  firstn (Z.to_nat (remcount b)) (get2 (p32 b) 0)
    = firstn (Z.to_nat (remcount b)) (get2 (p32 b) 1) ->
  firstn (Z.to_nat (remcount b)) (get2 (p32 (snd (process s b))) 0)
    = firstn (Z.to_nat (remcount b)) (get2 (p32 (snd (process s b))) 1) /\
  chan_cells (fst (process s b)) 0 = chan_cells (fst (process s b)) 1.
Proof.
  intros Hen Hn Hl0 Hl1 Hcells Hxs.
  destruct (process_channel_run 0 s b Hen (or_introl eq_refl) ltac:(lia) Hl0)
    as [[A0 _] O0].
  destruct (process_channel_run 1 s b Hen (or_intror eq_refl) Hn Hl1)
    as [[A1 _] O1].
  rewrite <- Hxs in A1, O1.
  set (xs := firstn (Z.to_nat (remcount b)) (get2 (p32 b) 0)) in *.
  assert (M : mirror 0 1 s s) by (repeat split; exact Hcells).
  destruct (run_channel_mirror 0 1 xs s s M) as [[R1 _] R2].
  assert (Lx : length xs = Z.to_nat (remcount b))
    by (subst xs; rewrite length_firstn; lia).
  split.
  - rewrite O0, O1, <- R2.
    rewrite !firstn_app_exact
      by (rewrite length_map, run_channel_length; exact Lx).
    reflexivity.
  - congruence.
Qed.

Lemma process_identical_channels_stay_identical_witness :
  firstn 2 (get2 (p32 (snd (process (recompute (state_with 100 44100))
                                    (mkBuffer 2 ([900; -300; 1], [900; -300; 2]) 2)))) 0)
  = firstn 2 (get2 (p32 (snd (process (recompute (state_with 100 44100))
                                      (mkBuffer 2 ([900; -300; 1], [900; -300; 2]) 2)))) 1).
Proof.
  destruct (process_identical_channels_stay_identical
              (recompute (state_with 100 44100))
              (mkBuffer 2 ([900; -300; 1], [900; -300; 2]) 2)) as [H _].
  - reflexivity.
  - simpl; lia.
  - simpl; lia.
  - simpl; lia.
  - reflexivity.
  - reflexivity.
  - exact H.
Defined.

(** ** Recomputation and the runtime setters *)

(** X13.  [recompute] derives the three coefficients from the settings
    and the cached sample rate alone: it equals the three runtime setters
    applied to the values held in the settings, it is idempotent, and it
    overwrites whatever an earlier call of a runtime setter stored. *)
Theorem recompute_is_setters_on_settings
        (s : state) (hz db : Z) (on : bool) :
  recompute s =
    sound_set_subharmonic_pregain_enable
      (subharmonic_pregain (global_settings s))
      (sound_set_subharmonic_level
         (subharmonic_level (global_settings s))
         (sound_set_subharmonic_crossover
            (subharmonic_crossover (global_settings s)) s)) /\
  recompute (recompute s) = recompute s /\
  recompute (sound_set_subharmonic_crossover hz s) = recompute s /\
  recompute (sound_set_subharmonic_level db s) = recompute s /\
  recompute (sound_set_subharmonic_pregain_enable on s) = recompute s.
Proof. repeat split. Qed.

(** ** Lifecycle events and histories *)

Lemma apply_event_settings e st :
  global_settings (fst (apply_event e st)) = global_settings (fst st).
Proof.
  destruct st as [s this]. destruct e as [setting f|b| | |]; cbn [apply_event fst].
  - destruct setting; reflexivity.
  - destruct (process_changes_only_samples_and_memories s b)
      as [_ [_ [_ [_ [G _]]]]]. exact G.
  - reflexivity.
  - reflexivity.
  - reflexivity.
Qed.

Lemma run_events_settings evs : forall st,
  global_settings (fst (run_events evs st)) = global_settings (fst st).
Proof.
  induction evs as [|e evs IH]; intros st; [reflexivity|].
  cbn [run_events]. rewrite IH. apply apply_event_settings.
Qed.

Lemma run_events_app evs1 evs2 st :
  run_events (evs1 ++ evs2) st = run_events evs2 (run_events evs1 st).
Proof.
  revert st. induction evs1 as [|e evs1 IH]; intros st; [reflexivity|].
  cbn [app run_events]. apply IH.
Qed.

Lemma init_from_settings this this' f s t :
  global_settings s = global_settings t ->
  fst (configure this f DSP_PROC_INIT s) =
  fst (configure this' f DSP_PROC_INIT t).
Proof.
  intros H. cbn [configure fst]. unfold recompute, set_samplerate, flush_state.
  cbn. rewrite H. reflexivity.
Qed.

(** X14.  Initialisation erases the history: the state and the process
    entry after [DSP_PROC_INIT] depend only on the settings and on the
    output frequency.  They are the same after any sequence of lifecycle
    events, processed buffers and crossover, level and pregain setter
    calls; the entry points to [process], all memories and toggles are
    zero, and the state equals a flush followed by a sample-rate
    change. *)
Theorem init_erases_history
        (evs : list event) (this : dsp_proc_entry) (f : Z) (s : state) :
  run_events (evs ++ [EvConfigure DSP_PROC_INIT f]) (s, this) =
    fst (configure this f DSP_PROC_INIT s) /\
  snd (fst (configure this f DSP_PROC_INIT s)) = mkEntry true /\
  (forall ch, chan_cells (fst (fst (configure this f DSP_PROC_INIT s))) ch
              = (0, 0, 0, 0)) /\
  fst (fst (configure this f DSP_PROC_INIT s)) =
    fst (fst (configure this f DSP_SET_OUT_FREQUENCY
                        (fst (fst (configure this f DSP_FLUSH s))))).
Proof.
  split; [|split; [reflexivity|split; [|reflexivity]]].
  - rewrite run_events_app. cbn [run_events].
    pose proof (run_events_settings evs (s, this)) as G. cbn [fst] in G.
    destruct (run_events evs (s, this)) as [s' this']. cbn [fst] in G.
    cbn [apply_event]. apply init_from_settings. exact G.
  - intros ch. unfold chan_cells, get2. cbn. destruct (ch =? 0); reflexivity.
Qed.

(** [configure] case by case: it never writes the settings, returns
    [PROC_NEW_FORMAT_OK] exactly for [DSP_PROC_NEW_FORMAT], leaves state
    and entry alone on a format change and on unknown settings, and only
    changes the entry on [DSP_PROC_INIT] and [DSP_PROC_CLOSE]. *)
Lemma configure_dispatch
        (this : dsp_proc_entry) (f : Z) (setting : dsp_setting) (s : state) :
  let r := configure this f setting s in
  global_settings (fst (fst r)) = global_settings s /\
  (snd r = PROC_NEW_FORMAT_OK <-> setting = DSP_PROC_NEW_FORMAT) /\
  (setting = DSP_PROC_NEW_FORMAT \/ (exists code, setting = DSP_OTHER code) ->
   fst r = (s, this)) /\
  (setting <> DSP_PROC_INIT -> setting <> DSP_PROC_CLOSE ->
   snd (fst r) = this) /\
  fst (configure this f DSP_PROC_CLOSE s) = (flush_state s, mkEntry false) /\
  (setting <> DSP_PROC_INIT -> setting <> DSP_SET_OUT_FREQUENCY ->
   samplerate (fst (fst r)) = samplerate s /\
   alpha_q16 (fst (fst r)) = alpha_q16 s /\
   gain_q16 (fst (fst r)) = gain_q16 s /\
   pregain (fst (fst r)) = pregain s).
Proof.
  destruct setting; cbn; repeat split; try reflexivity; try discriminate;
    try congruence; intros; try congruence.
  all: try (match goal with
            | H : _ \/ _ |- _ =>
                destruct H as [H | [code H]]; discriminate H
            end).
Qed.

(** ** The operating invariant *)

Lemma toggles_ok_flush s : toggles_ok (flush_state s).
Proof. intro ch. left. apply flush_state_toggle. Qed.

Lemma channel_body_toggles s c x :
  toggles_ok s -> toggles_ok (fst (channel_body s c x)).
Proof.
  intros H ch. unfold channel_body. cbn -[lowpass_q16 mixer].
  destruct (Bool.bool_dec (c =? 0) (ch =? 0)) as [E|E].
  - assert (G : forall v, get2 (set2 (toggle_state s) c v) ch = v).
    { intro v. unfold get2, set2. rewrite <- E.
      destruct (c =? 0); reflexivity. }
    rewrite G.
    assert (T : get2 (toggle_state s) c = get2 (toggle_state s) ch)
      by (unfold get2; rewrite E; reflexivity).
    destruct (H c) as [-> | ->]; [right | left]; reflexivity.
  - rewrite get2_set2_other by exact E. apply H.
Qed.

Lemma process_toggles s b : toggles_ok s -> toggles_ok (fst (process s b)).
Proof.
  intros H. unfold process.
  destruct (negb (subharmonic_enable (global_settings s))); [exact H|].
  apply (process_loop_invariant (fun sb => toggles_ok (fst sb))); [|exact H].
  intros i [s' b'] H'. cbn [fst] in H'. unfold process_sample. cbn [snd].
  destruct (0 <? num_channels b'), (1 <? num_channels b');
    rewrite ?process_channel_eq; cbn [fst];
    repeat apply channel_body_toggles; exact H'.
Qed.

Lemma operational_recompute s :
  0 < samplerate s <= INT32_MAX ->
  0 <= subharmonic_crossover (global_settings s) <= CUTOFF_MAX ->
  cells_in_int32 s -> toggles_ok s ->
  operational (recompute s).
Proof.
  intros Hfs Hf Hc Ht. split; [split; [|split; [|split]]|split].
  - rewrite recompute_alpha, alpha_of_exact by assumption.
    apply alpha_exact_range; assumption.
  - rewrite recompute_gain. apply gain_lookup_in_table.
  - exact Hc.
  - exact Ht.
  - exact Hfs.
  - exact Hf.
Qed.

Lemma operational_intro s :
  0 <= alpha_q16 s < 65536 ->
  In (gain_q16 s) gain_table_q16 ->
  cells_in_int32 s -> toggles_ok s ->
  0 < samplerate s <= INT32_MAX ->
  0 <= subharmonic_crossover (global_settings s) <= CUTOFF_MAX ->
  operational s.
Proof.
  intros H1 H2 H3 H4 H5 H6.
  split; [split; [exact H1 | split; [exact H2 | split; [exact H3 | exact H4]]]
         | split; [exact H5 | exact H6]].
Qed.

Lemma operational_apply_event e s this :
  valid_event e -> operational s ->
  operational (fst (apply_event e (s, this))).
Proof.
  intros Hv [[Ha [Hg [Hc Ht]]] [Hfs Hf]].
  destruct e as [setting f|b|hz|db|on]; cbn [apply_event fst valid_event] in *.
  - destruct setting; cbn [configure fst].
    + apply operational_recompute; cbn; try assumption.
      * rewrite wrap32_id by (unfold_ranges; lia). exact Hv.
      * apply flush_state_cells.
      * apply toggles_ok_flush.
    + apply operational_intro; try assumption;
        [apply flush_state_cells | apply toggles_ok_flush].
    + apply operational_intro; try assumption;
        [apply flush_state_cells | apply toggles_ok_flush].
    + apply operational_recompute; cbn; try assumption.
      rewrite wrap32_id by (unfold_ranges; lia). exact Hv.
    + apply operational_intro; assumption.
    + apply operational_intro; assumption.
  - destruct (process_changes_only_samples_and_memories s b)
      as [Ea [Eg [_ [Es [Egs _]]]]].
    apply operational_intro; rewrite ?Ea, ?Eg, ?Es, ?Egs; try assumption.
    + apply process_cells; exact Hc.
    + apply process_toggles; exact Ht.
  - apply operational_intro; try assumption.
    rewrite crossover_setter_alpha, alpha_of_exact by assumption.
    apply alpha_exact_range; assumption.
  - apply operational_intro; try assumption.
    apply gain_lookup_in_table.
  - apply operational_intro; assumption.
Qed.

Lemma operational_run_events evs : forall s this,
  Forall valid_event evs -> operational s ->
  operational (fst (run_events evs (s, this))).
Proof.
  induction evs as [|e evs IH]; intros s this Hv Ho; [exact Ho|].
  inversion Hv as [|? ? He Hevs]; subst. cbn [run_events].
  pose proof (operational_apply_event e s this He Ho) as Ho'.
  destruct (apply_event e (s, this)) as [s' this']. apply IH; assumption.
Qed.

(** X15.  The operating invariant.  When the configured cutoff is between
    0 and [CUTOFF_MAX], initialisation at a positive 32-bit output
    frequency, followed by any sequence of lifecycle events with such
    frequencies, processed buffers, level and pregain changes and
    crossover changes within that cutoff range, always leaves a state
    with [0 <= alpha_q16 < 2^16], a gain taken from the table, 32-bit
    memories, toggles equal to 0 or 1 and a positive cached sample
    rate. *)
Theorem operating_invariant
        (evs : list event) (this : dsp_proc_entry) (f : Z) (s : state) :
  0 <= subharmonic_crossover (global_settings s) <= CUTOFF_MAX ->
  0 < f <= INT32_MAX ->
  Forall valid_event evs ->
  let s' := fst (run_events (EvConfigure DSP_PROC_INIT f :: evs) (s, this)) in
  0 <= alpha_q16 s' < 2 ^ 16 /\
  In (gain_q16 s') gain_table_q16 /\
  cells_in_int32 s' /\
  toggles_ok s' /\
  0 < samplerate s' <= INT32_MAX.
Proof.
  intros Hf Hfs Hv s'.
  assert (Ho : operational s').
  { subst s'. cbn [run_events apply_event].
    assert (Hi : operational (fst (fst (configure this f DSP_PROC_INIT s)))).
    { cbn [configure fst]. apply operational_recompute; cbn; try assumption.
      - rewrite wrap32_id by (unfold_ranges; lia). exact Hfs.
      - apply flush_state_cells.
      - apply toggles_ok_flush. }
    destruct (fst (configure this f DSP_PROC_INIT s)) as [s1 this1].
    apply operational_run_events; assumption. }
  destruct Ho as [[Ha [Hg [Hc Ht]]] [Hs _]].
  change (2 ^ 16) with 65536.
  split; [exact Ha | split; [exact Hg | split; [exact Hc | split; [exact Ht | exact Hs]]]].
Qed.

Lemma operating_invariant_witness :
  0 <= alpha_q16
         (fst (run_events
                 [EvConfigure DSP_PROC_INIT 44100;
                  EvProcess (mkBuffer 2 ([1000; -1000], [5; 6]) 2);
                  EvCrossover 200; EvLevel 40;
                  EvConfigure DSP_SET_OUT_FREQUENCY 48000]
                 (state_with 100 44100, mkEntry false))) < 2 ^ 16.
Proof.
  destruct (operating_invariant
              [EvProcess (mkBuffer 2 ([1000; -1000], [5; 6]) 2);
               EvCrossover 200; EvLevel 40;
               EvConfigure DSP_SET_OUT_FREQUENCY 48000]
              (mkEntry false) 44100 (state_with 100 44100)) as [H _].
  - simpl; unfold CUTOFF_MAX; lia.
  - unfold INT32_MAX; lia.
  - repeat constructor; simpl; unfold CUTOFF_MAX, INT32_MAX; lia.
  - exact H.
Defined.

(** ** Enabling and disabling *)

Lemma process_disabled_is_noop_gen s b :
  subharmonic_enable (global_settings s) = false -> process s b = (s, b).
Proof. intros H. unfold process. rewrite H. reflexivity. Qed.

Lemma deliver_run_events cbs : forall st,
  deliver cbs st =
  run_events (map (fun p => EvConfigure (fst p) (snd p)) cbs) st.
Proof.
  induction cbs as [|[setting f] cbs IH]; intros [s this]; [reflexivity|].
  cbn [deliver map run_events apply_event fst snd]. apply IH.
Qed.

Lemma deliver_settings cbs st :
  global_settings (fst (deliver cbs st)) = global_settings (fst st).
Proof. rewrite deliver_run_events. apply run_events_settings. Qed.

Lemma host_do_settings host c r :
  global_settings (fst (fst (host_do host c r))) =
  global_settings (fst (fst r)).
Proof. unfold host_do. cbn [fst]. apply deliver_settings. Qed.

(** Whatever the host delivers, [dsp_set_subharmonic] leaves the settings
    as it found them. *)
Lemma dsp_set_subharmonic_settings host was_enabled st :
  global_settings (fst (fst (dsp_set_subharmonic host was_enabled st))) =
  global_settings (fst st).
Proof.
  unfold dsp_set_subharmonic.
  destruct (subharmonic_enable (global_settings (fst st))), was_enabled;
    cbn [negb]; rewrite ?host_do_settings; reflexivity.
Qed.

(** The calls issued depend on the flag and on the registration found,
    not on what the host delivers. *)
Lemma dsp_set_subharmonic_calls host was_enabled st :
  snd (dsp_set_subharmonic host was_enabled st) =
  if subharmonic_enable (global_settings (fst st))
  then (if was_enabled
        then [Call_dsp_configure_INIT]
        else [Call_dsp_proc_enable true])
       ++ [Call_dsp_proc_activate true; Call_dsp_proc_set_in_place true]
  else Call_dsp_proc_activate false
       :: (if was_enabled then [Call_dsp_proc_enable false] else []).
Proof.
  unfold dsp_set_subharmonic.
  destruct (subharmonic_enable (global_settings (fst st))), was_enabled;
    reflexivity.
Qed.

Ltac solve_call_membership :=
  cbn; repeat split; intros; try discriminate; try congruence; auto;
  repeat match goal with
         | H : _ \/ _ |- _ => destruct H
         | H : _ /\ _ |- _ => destruct H
         | H : False |- _ => contradiction
         end; try discriminate; try congruence; auto.

(** X16.  [sound_set_subharmonic_enable] stores its argument in the
    settings and, whatever lifecycle callbacks the host delivers while
    serving its calls, leaves the flag at that value and the other
    settings as they were.  Towards the host it registers or unregisters
    the stage only on a change ([dsp_proc_enable] is called with [on]
    exactly when [on] differs from the registration found), requests a
    re-initialisation exactly when the stage is switched on while
    already registered, always sets the activation to [on], and marks
    the stage in-place exactly when switching on.  With a core that
    initialises on registration and on that request and closes on
    unregistration, switching on leaves the state and process entry of
    [DSP_PROC_INIT] (memories zeroed, coefficients recomputed at the
    reported frequency), switching off a registered stage leaves those
    of [DSP_PROC_CLOSE], and switching off an unregistered stage changes
    only the flag. *)
Theorem enable_setter_registration
        (host : host_reaction) (on was_enabled v : bool) (f : Z)
        (s : state) (this : dsp_proc_entry) :
  let r := sound_set_subharmonic_enable host on was_enabled (s, this) in
  let s' := fst (fst r) in
  let calls := snd r in
  subharmonic_enable (global_settings s') = on /\
  subharmonic_crossover (global_settings s')
    = subharmonic_crossover (global_settings s) /\
  subharmonic_level (global_settings s')
    = subharmonic_level (global_settings s) /\
  subharmonic_pregain (global_settings s')
    = subharmonic_pregain (global_settings s) /\
  (In (Call_dsp_proc_enable v) calls <-> v = on /\ on <> was_enabled) /\
  (In Call_dsp_configure_INIT calls <-> on = true /\ was_enabled = true) /\
  (In (Call_dsp_proc_activate v) calls <-> v = on) /\
  (In (Call_dsp_proc_set_in_place v) calls <-> v = true /\ on = true) /\
  (host = core_host f ->
   fst r =
   if on
   then fst (configure this f DSP_PROC_INIT (store_enable true s))
   else if was_enabled
        then fst (configure this f DSP_PROC_CLOSE (store_enable false s))
        else (store_enable false s, this)).
Proof.
  intros r s' calls.
  assert (G : global_settings s' = global_settings (store_enable on s)).
  { subst s' r. unfold sound_set_subharmonic_enable.
    rewrite dsp_set_subharmonic_settings. reflexivity. }
  assert (C : calls =
              if on
              then (if was_enabled
                    then [Call_dsp_configure_INIT]
                    else [Call_dsp_proc_enable true])
                   ++ [Call_dsp_proc_activate true;
                       Call_dsp_proc_set_in_place true]
              else Call_dsp_proc_activate false
                   :: (if was_enabled
                       then [Call_dsp_proc_enable false] else [])).
  { subst calls r. unfold sound_set_subharmonic_enable.
    rewrite dsp_set_subharmonic_calls. reflexivity. }
  split; [rewrite G; reflexivity|].
  split; [rewrite G; reflexivity|].
  split; [rewrite G; reflexivity|].
  split; [rewrite G; reflexivity|].
  split; [|split; [|split; [|split]]].
  - rewrite C. destruct on, was_enabled, v; solve_call_membership.
  - rewrite C. destruct on, was_enabled; solve_call_membership.
  - rewrite C. destruct on, was_enabled, v; solve_call_membership.
  - rewrite C. destruct on, was_enabled, v; solve_call_membership.
  - intros ->. subst r. destruct on, was_enabled; reflexivity.
Qed.

Lemma enable_setter_registration_witness :
  In (Call_dsp_proc_enable true)
     (snd (sound_set_subharmonic_enable (core_host 48000) true false
             (state_with 100 44100, mkEntry false)))
  /\
  ~ In (Call_dsp_proc_enable true)
       (snd (sound_set_subharmonic_enable (core_host 48000) true true
               (state_with 100 44100, mkEntry true)))
  /\
  fst (sound_set_subharmonic_enable (core_host 48000) true true
         (state_with 100 44100, mkEntry true))
  = fst (configure (mkEntry true) 48000 DSP_PROC_INIT
                   (store_enable true (state_with 100 44100))).
Proof.
  split; [|split].
  - destruct (enable_setter_registration (core_host 48000) true false true
                48000 (state_with 100 44100) (mkEntry false))
      as [_ [_ [_ [_ [H _]]]]].
    apply H. split; [reflexivity | discriminate].
  - destruct (enable_setter_registration (core_host 48000) true true true
                48000 (state_with 100 44100) (mkEntry true))
      as [_ [_ [_ [_ [H _]]]]].
    intro Hin. apply H in Hin. destruct Hin as [_ Hne]. apply Hne. reflexivity.
  - destruct (enable_setter_registration (core_host 48000) true true true
                48000 (state_with 100 44100) (mkEntry true))
      as [_ [_ [_ [_ [_ [_ [_ [_ H]]]]]]]].
    apply H. reflexivity.
Defined.

(** X17.  Once switched off, the stage stays out of the signal path:
    after [sound_set_subharmonic_enable] with [false], whatever
    callbacks the host delivers during that call and whatever lifecycle
    events, buffers and crossover, level and pregain setter calls
    follow, [process] returns the buffer and the state unchanged. *)
Theorem disabled_stage_never_processes
        (host : host_reaction) (was_enabled : bool) (evs : list event)
        (this : dsp_proc_entry) (s : state) (b : dsp_buffer) :
  let st1 := fst (sound_set_subharmonic_enable host false was_enabled
                                               (s, this)) in
  let s2 := fst (run_events evs st1) in
  process s2 b = (s2, b).
Proof.
  intros st1 s2. apply process_disabled_is_noop_gen.
  subst s2. rewrite run_events_settings. subst st1.
  unfold sound_set_subharmonic_enable.
  rewrite dsp_set_subharmonic_settings. reflexivity.
Qed.

(** ** Flushing between buffers *)

(** X18.  A flush or a close forgets the audio processed so far: after
    either event, processing a buffer gives exactly the samples and the
    state it would give had the earlier buffer never been processed. *)
Theorem flush_forgets_processed_audio
        (this : dsp_proc_entry) (f : Z) (s : state) (b1 b2 : dsp_buffer) :
  process (fst (fst (configure this f DSP_FLUSH (fst (process s b1))))) b2 =
  process (fst (fst (configure this f DSP_FLUSH s))) b2 /\
  process (fst (fst (configure this f DSP_PROC_CLOSE (fst (process s b1))))) b2 =
  process (fst (fst (configure this f DSP_PROC_CLOSE s))) b2.
Proof.
  cbn [configure fst]. rewrite flush_after_process. split; reflexivity.
Qed.

(** ** Levels and unity gain *)

(** X19.  The sign of the level decides the direction of the gain:
    negative levels store a gain below 1.0 in Q16, the level 0 stores
    exactly 1.0 (65536), positive levels store a gain above 1.0; and at
    the level 0 the mixer adds the subharmonic sample unscaled before
    saturating. *)
Theorem level_sign_and_unity_gain
        (db sample aa : Z) (pg : bool) (s : state) :
  in_int32 sample -> in_int32 aa ->
  (db < 0 -> gain_q16 (sound_set_subharmonic_level db s) < 65536) /\
  gain_q16 (sound_set_subharmonic_level 0 s) = 65536 /\
  (0 < db -> 65536 < gain_q16 (sound_set_subharmonic_level db s)) /\
  mixer sample aa (gain_q16 (sound_set_subharmonic_level 0 s)) pg =
    clamp32 ((if pg then Z.shiftr sample 1 else sample) + aa).
Proof.
  intros Hs Ha.
  change (gain_q16 (sound_set_subharmonic_level 0 s)) with 65536.
  change (gain_q16 (sound_set_subharmonic_level db s)) with (gain_lookup db).
  split; [|split; [reflexivity|split]].
  - intros Hneg. rewrite gain_lookup_clamp_db.
    pose proof (clamp_db_range db) as R.
    assert (Hc : clamp_db db < 0)
      by (unfold clamp_db, GAIN_TABLE_MIN_DB, GAIN_TABLE_MAX_DB; lia).
    rewrite gain_lookup_in_range by exact R.
    change 65536 with (nth 24 gain_table_q16 0).
    apply gain_table_increasing; lia.
  - intros Hpos. rewrite gain_lookup_clamp_db.
    pose proof (clamp_db_range db) as R.
    assert (Hc : 0 < clamp_db db)
      by (unfold clamp_db, GAIN_TABLE_MIN_DB, GAIN_TABLE_MAX_DB; lia).
    rewrite gain_lookup_in_range by exact R.
    change 65536 with (nth 24 gain_table_q16 0).
    apply gain_table_increasing; lia.
  - rewrite mixer_saturates by (assumption || (unfold_ranges; lia)).
    unfold mix_exact. rewrite Z.mul_comm, Z.div_mul by lia.
    rewrite shiftr1. reflexivity.
Qed.

Lemma level_sign_and_unity_gain_witness :
  gain_q16 (sound_set_subharmonic_level (-3) (state_with 100 44100)) < 65536 /\
  65536 < gain_q16 (sound_set_subharmonic_level 30 (state_with 100 44100)) /\
  mixer INT32_MAX 5 (gain_q16 (sound_set_subharmonic_level 0 (state_with 100 44100)))
        false
  = clamp32 (INT32_MAX + 5).
Proof.
  split; [|split].
  - destruct (level_sign_and_unity_gain (-3) INT32_MAX 5 false
                (state_with 100 44100)) as [H _];
      [unfold_ranges; lia | unfold_ranges; lia | apply H; lia].
  - destruct (level_sign_and_unity_gain 30 INT32_MAX 5 false
                (state_with 100 44100)) as [_ [_ [H _]]];
      [unfold_ranges; lia | unfold_ranges; lia | apply H; lia].
  - destruct (level_sign_and_unity_gain 0 INT32_MAX 5 false
                (state_with 100 44100)) as [_ [_ [_ H]]];
      [unfold_ranges; lia | unfold_ranges; lia | exact H].
Defined.
